(** * SmartGuard: the frame pipeline and the enrollment workflow of [server.py]

    A shallow embedding of the recognition pipeline ([detection_loop]), the
    recognizer manager ([train_recognizer_from_dir], [reload_recognizer]),
    the capture session ([_capture_worker], [api_capture_start],
    [api_capture_stop], [api_register], [api_delete_label]), the
    people snapshot ([api_current]) and the other recognizer endpoints
    ([api_reload], [api_enroll], [api_labels], [api_clear_all],
    [api_capture], with [_label_counts]), followed by the properties proved
    about them.

    Python [int] is [Z], Python [float] is the IEEE binary64 [float] of
    [PrimFloat], [str] is [string], [Dict[int, str]] is a [gmap].  OpenCV and
    NumPy are an interface ([OpenCV]) whose operations the program only
    calls. *)

From Stdlib Require Import ZArith List Bool Lia.
From Stdlib Require Import Floats.PrimFloat.
From stdpp Require Import base option list sorting gmap strings pretty.

Open Scope Z_scope.

(** ** Configuration (the module-level constants read from the environment) *)

Class Config := {
  ENABLE_RECOG : bool;
  RECOG_THRESHOLD : float;
  DETECT_EVERY_N : Z;
  RECOG_EVERY_N : Z;
  RECOG_MIN_SIDE : Z;
  VOTE_WINDOW : Z;
  VOTE_REQUIRE : Z;
  CURRENT_EXPIRE_SEC : float
}.

(** The values [server.py] takes when the environment sets nothing. *)
Definition default_config : Config := {|
  ENABLE_RECOG := true;
  RECOG_THRESHOLD := 11%float;
  DETECT_EVERY_N := 1;
  RECOG_EVERY_N := 2;
  RECOG_MIN_SIDE := 48;
  VOTE_WINDOW := 5;
  VOTE_REQUIRE := 3;
  CURRENT_EXPIRE_SEC := 1.5%float
|}.

(** ** Data *)

(** A face box [(x, y, w, h)]. *)
Record FaceBox := { box_x : Z; box_y : Z; box_w : Z; box_h : Z }.

Definition area (b : FaceBox) : Z := box_w b * box_h b.

(** What [cv2.imread] does on a stored file: it returns [None], raises, or
    returns an image. *)
Inductive imread_result (image : Type) :=
  | ImreadNone
  | ImreadRaises
  | ImreadOk (img : image).
Arguments ImreadNone {image}.
Arguments ImreadRaises {image}.
Arguments ImreadOk {image} img.

(** ** The OpenCV / NumPy interface

    [None] results stand for a raised exception.  [has_face] is
    [hasattr(cv2, "face")]; [downscale] and [rescale_box] are the resize to
    [DETECT_DOWNSCALE] and the [int(v*scale)] of lines 179-199; [mean_1f]
    is [f"{np.mean(confs):.1f}"]. *)
Class OpenCV := {
  image : Type;
  model : Type;
  has_face : bool;
  detectMultiScale : image -> list FaceBox;
  downscale : image -> image;
  rescale_box : FaceBox -> FaceBox;
  crop : image -> FaceBox -> image;
  size : image -> Z;
  resize : image -> image;
  lbph_train : list image -> list Z -> option model;
  predict : model -> image -> option (Z * float);
  mean_1f : list float -> string
}.

(** ** Python built-ins used by the program *)

Module Py.

(** [max(xs, key=key)]: the first element whose key is maximal. *)
Fixpoint max_from {A} (key : A -> Z) (best : A) (xs : list A) : A :=
  match xs with
  | [] => best
  | x :: rest => max_from key (if key best <? key x then x else best) rest
  end.

Definition max_by {A} (key : A -> Z) (xs : list A) : option A :=
  match xs with
  | [] => None
  | x :: rest => Some (max_from key x rest)
  end.

(** [sorted]: a stable sort; [le a b] says [a] may stay before [b]. *)
Fixpoint insert_sorted {A} (le : A -> A -> bool) (a : A) (xs : list A) : list A :=
  match xs with
  | [] => [a]
  | x :: rest => if le a x then a :: xs else x :: insert_sorted le a rest
  end.

Fixpoint sorted {A} (le : A -> A -> bool) (xs : list A) : list A :=
  match xs with
  | [] => []
  | x :: rest => insert_sorted le x (sorted le rest)
  end.

(** [collections.Counter(xs)] as its items in insertion order. *)
Fixpoint counter_add (c : list (string * Z)) (x : string) : list (string * Z) :=
  match c with
  | [] => [(x, 1)]
  | (k, n) :: rest =>
      if decide (k = x) then (k, n + 1) :: rest else (k, n) :: counter_add rest x
  end.

Definition Counter (xs : list string) : list (string * Z) :=
  foldl counter_add [] xs.

(** [c.most_common(1)], which is [heapq.nlargest(1, c.items(), key=count)],
    that is [max] over the items. *)
Definition most_common1 (c : list (string * Z)) : option (string * Z) :=
  max_by snd c.

(** [deque(maxlen=n).append(x)] *)
Definition deque_append {A} (maxlen : nat) (x : A) (d : list A) : list A :=
  let d' := d ++ [x] in
  if (maxlen <? length d')%nat then drop 1 d' else d'.

(** [s.lower()] on the ASCII letters. *)
Definition lower_ascii (c : Ascii.ascii) : Ascii.ascii :=
  let n := Ascii.nat_of_ascii c in
  if ((65 <=? n) && (n <=? 90))%nat then Ascii.ascii_of_nat (n + 32) else c.

Fixpoint lower (s : string) : string :=
  match s with
  | EmptyString => EmptyString
  | String c rest => String (lower_ascii c) (lower rest)
  end.

Definition endswith (s suffix : string) : bool :=
  let n := String.length s in
  let k := String.length suffix in
  ((k <=? n)%nat && String.eqb (String.substring (n - k) k s) suffix).

End Py.

(** ** VoteStabilizer: the vote window of [detection_loop] (lines 165, 256-266) *)

Definition vote : Type := string * option float.

Section Vote.
Context `{cv : OpenCV} `{cfg : Config}.

(** [deque(maxlen=max(1, VOTE_WINDOW))] *)
Definition vote_maxlen : nat := Z.to_nat (Z.max 1 VOTE_WINDOW).

(** [pred_hist.append(best_for_vote if best_for_vote is not None else ("unknown", None))] *)
Definition push_vote (best_for_vote : option vote) (pred_hist : list vote) : list vote :=
  Py.deque_append vote_maxlen (default ("unknown", None) best_for_vote) pred_hist.

(** [[p[0] for p in pred_hist if p[0] != "unknown"]] *)
Definition labels_in_window (pred_hist : list vote) : list string :=
  fst <$> filter (fun p : vote => fst p <> "unknown") pred_hist.

(** [[p[1] for p in pred_hist if p[0] == label_top and p[1] is not None]] *)
Definition confs_of (label_top : string) (pred_hist : list vote) : list float :=
  omap (fun p : vote => if decide (fst p = label_top) then snd p else None) pred_hist.

(** [f"{label_top} ({np.mean(confs):.1f})" if confs else label_top] *)
Definition annotated (label_top : string) (confs : list float) : string :=
  match confs with
  | [] => label_top
  | _ => label_top +:+ " (" +:+ mean_1f confs +:+ ")"
  end.

Definition final_text (pred_hist : list vote) : string :=
  match labels_in_window pred_hist with
  | [] => "unknown"
  | liw =>
      match Py.most_common1 (Py.Counter liw) with
      | Some (label_top, votes) =>
          if VOTE_REQUIRE <=? votes
          then annotated label_top (confs_of label_top pred_hist)
          else "unknown"
      | None => "unknown"
      end
  end.

End Vote.

(** ** RecognizerManager: the training store, training and reload (lines 86-146) *)

(** The directory [RECOG_DATA_DIR]: [None] when it is not a directory;
    otherwise its entries by name, a label directory holding its entries by
    file name with what [cv2.imread] yields on each. *)
Inductive fs_node (image : Type) :=
  | FsFile
  | FsDir (entries : gmap string (imread_result image)).
Arguments FsFile {image}.
Arguments FsDir {image} entries.

(** A path [os.path.join(root, label, fn)], by its two components. *)
Definition path : Type := string * string.

Section Recognizer.
Context `{cv : OpenCV} `{cfg : Config}.

Definition store : Type := option (gmap string (fs_node image)).

(** The three globals guarded by [recognizer_lock]. *)
Record recog_globals := {
  recognizer : option model;
  label2id : gmap string Z;
  id2label : gmap Z string
}.

Definition no_recognizer : recog_globals :=
  {| recognizer := None; label2id := ∅; id2label := ∅ |}.

(** [sorted(os.listdir(d))] *)
Definition listdir_sorted {A} (d : gmap string A) : list string :=
  Py.sorted String.leb (fst <$> map_to_list d).

(** [fn.lower().endswith((".jpg", ".jpeg", ".png"))] *)
Definition is_image_name (fn : string) : bool :=
  let l := Py.lower fn in
  Py.endswith l ".jpg" || Py.endswith l ".jpeg" || Py.endswith l ".png".

Definition _iter_face_paths (root : store) : list (string * path) :=
  match root with
  | None => []
  | Some top =>
      label ← listdir_sorted top;
      match top !! label with
      | Some (FsDir d) =>
          (fun fn => (label, (label, fn))) <$>
            filter (fun fn => is_image_name fn = true) (listdir_sorted d)
      | _ => []
      end
  end.

Definition imread (root : store) (p : path) : imread_result image :=
  match root with
  | Some top =>
      match top !! fst p with
      | Some (FsDir d) => default ImreadNone (d !! snd p)
      | _ => ImreadNone
      end
  | None => ImreadNone
  end.

Definition _prepare_face (gray : image) : image := resize gray.

(** The locals [X, y, l2i, i2l, next_id] of [train_recognizer_from_dir]. *)
Record train_acc := {
  X : list image;
  y : list Z;
  l2i : gmap string Z;
  i2l : gmap Z string;
  next_id : Z
}.

(** One iteration of the loop over [_iter_face_paths(root)]. *)
Definition train_step (root : store) (a : train_acc) (pair : string * path) : train_acc :=
  let '(label, p) := pair in
  match imread root p with
  | ImreadNone => a
  | ImreadRaises => a
  | ImreadOk img =>
      let face_img := _prepare_face img in
      let X' := X a ++ [face_img] in
      match l2i a !! label with
      | Some i =>
          {| X := X'; y := y a ++ [i]; l2i := l2i a; i2l := i2l a; next_id := next_id a |}
      | None =>
          {| X := X'; y := y a ++ [next_id a];
             l2i := <[label := next_id a]> (l2i a);
             i2l := <[next_id a := label]> (i2l a);
             next_id := next_id a + 1 |}
      end
  end.

(** [None] when an exception leaves the function: [_ensure_opencv_contrib]
    or the creation and training of the LBPH recognizer. *)
Definition train_recognizer_from_dir (root : store)
  : option (option model * gmap string Z * gmap Z string) :=
  if negb ENABLE_RECOG then Some (None, ∅, ∅)
  else if negb has_face then None
  else
    let a := foldl (train_step root)
               {| X := []; y := []; l2i := ∅; i2l := ∅; next_id := 0 |}
               (_iter_face_paths root) in
    match X a with
    | [] => Some (None, ∅, ∅)
    | _ =>
        match lbph_train (X a) (y a) with
        | Some rec => Some (Some rec, l2i a, i2l a)
        | None => None
        end
    end.

Definition reload_recognizer (root : store) (g : recog_globals) : bool * recog_globals :=
  match train_recognizer_from_dir root with
  | Some (rec, l2i, i2l) =>
      (true, {| recognizer := rec; label2id := l2i; id2label := i2l |})
  | None => (false, g)
  end.

End Recognizer.

(** ** PipelineLoop: one iteration of [detection_loop] (lines 167-286) *)

(** An entry of [current_people]: the keys [label], [conf], [bbox], [ts]. *)
Record person := {
  p_label : string;
  p_conf : option float;
  p_bbox : FaceBox;
  p_ts : float
}.

Section Pipeline.
Context `{cv : OpenCV} `{cfg : Config}.

(** The locals that survive an iteration. *)
Record loop_state := {
  frame_idx : Z;
  faces_fullres : list FaceBox;
  pred_hist : list vote
}.

Definition loop_start : loop_state :=
  {| frame_idx := 0; faces_fullres := []; pred_hist := [] |}.

(** What an iteration reads from outside: the grayscale frame, the
    recognizer globals as they are when the lock is taken, and the clock
    read for the box at each position. *)
Record cycle_input := {
  in_gray : image;
  in_recog : recog_globals;
  in_clock : nat -> float
}.

(** What an iteration did: its frame index, whether it called the detector,
    whether it was a recognition cycle, the boxes whose crop went to
    [rec.predict], the list it published and the text it drew. *)
Record cycle_log := {
  at_frame : Z;
  detect_called : bool;
  recog_cycle : bool;
  predict_calls : list FaceBox;
  faces_out : list person;
  drawn_text : string
}.

(** The body of the loop over [faces_iter] up to the label (lines 213-230):
    [name_text], [conf_val] and whether [rec.predict] was called. *)
Definition recognise (rec : option model) (labels : gmap Z string) (do_recog : bool)
    (gray : image) (b : FaceBox) : string * option float * bool :=
  let recognizable := RECOG_MIN_SIDE <=? Z.min (box_w b) (box_h b) in
  match rec with
  | Some r =>
      if do_recog && recognizable then
        let c := crop gray b in
        if 0 <? size c then
          match predict r (_prepare_face c) with
          | Some (pred_id, conf) =>
              (if PrimFloat.leb conf RECOG_THRESHOLD
               then match labels !! pred_id with
                    | Some name => name
                    | None => "unknown"
                    end
               else "unknown",
               Some conf, true)
          | None => ("unknown", None, true)
          end
        else ("unknown", None, false)
      else ("unknown", None, false)
  | None => ("unknown", None, false)
  end.

Definition do_detect (i : Z) : bool := i mod Z.max 1 DETECT_EVERY_N =? 0.
Definition do_recog (i : Z) : bool := i mod Z.max 1 RECOG_EVERY_N =? 0.

(** [sorted(faces_fullres, key=lambda b: b[2]*b[3], reverse=True)] *)
Definition faces_iter (faces : list FaceBox) : list FaceBox :=
  Py.sorted (fun a b => area b <=? area a) faces.

Definition cycle (st : loop_state) (inp : cycle_input) : loop_state * cycle_log :=
  let i := frame_idx st + 1 in
  let gray := in_gray inp in
  let faces :=
    if do_detect i then rescale_box <$> detectMultiScale (downscale gray)
    else faces_fullres st in
  let rec := recognizer (in_recog inp) in
  let labels := id2label (in_recog inp) in
  let results :=
    imap (fun idx b => (idx, b, recognise rec labels (do_recog i) gray b))
      (faces_iter faces) in
  let out :=
    (fun r : nat * FaceBox * (string * option float * bool) =>
       let '(idx, b, (name_text, conf_val, _)) := r in
       {| p_label := name_text; p_conf := conf_val; p_bbox := b;
          p_ts := in_clock inp idx |}) <$> results in
  let best_for_vote : option vote :=
    if do_recog i
    then (fun r : nat * FaceBox * (string * option float * bool) =>
            let '(_, _, (name_text, conf_val, _)) := r in (name_text, conf_val))
         <$> head results
    else None in
  let hist :=
    if do_recog i then push_vote best_for_vote (pred_hist st) else pred_hist st in
  ({| frame_idx := i; faces_fullres := faces; pred_hist := hist |},
   {| at_frame := i;
      detect_called := do_detect i;
      recog_cycle := do_recog i;
      predict_calls :=
        omap (fun r : nat * FaceBox * (string * option float * bool) =>
                let '(_, b, (_, _, called)) := r in
                if called then Some b else None) results;
      faces_out := out;
      drawn_text := final_text hist |}).

(** The [while] loop over the results of [cap.read()]: [None] is a failed
    read ([time.sleep(0.02); continue]). *)
Fixpoint detection_loop (st : loop_state) (reads : list (option cycle_input))
  : loop_state * list cycle_log :=
  match reads with
  | [] => (st, [])
  | None :: rest => detection_loop st rest
  | Some inp :: rest =>
      let '(st1, lg) := cycle st inp in
      let '(st2, lgs) := detection_loop st1 rest in
      (st2, lg :: lgs)
  end.

(** [api_current]: the people whose [ts] has not expired at [now]. *)
Definition api_current (now : float) (current_people : list person) : list person :=
  filter
    (fun p => PrimFloat.leb (PrimFloat.sub now (p_ts p)) CURRENT_EXPIRE_SEC = true)
    current_people.

End Pipeline.

(** ** CaptureSession: the enrollment workflow (lines 304-397, 544-597, 652-680) *)

(** The dict [capture_state]. *)
Record capture_dict := {
  running : bool;
  label : option string;
  interval_ms : Z;
  target_count : Z;
  saved : list path;
  face_only : bool;
  retrain_on_stop : bool
}.

Definition capture_state0 : capture_dict := {|
  running := false;
  label := None;
  interval_ms := 50;
  target_count := 30;
  saved := [];
  face_only := true;
  retrain_on_stop := true
|}.

(** Where a [_capture_worker] thread stands: before its first line, at the
    test of its [while], before line 358 ([capture_state["saved"] = saved]),
    before line 359 ([capture_state["running"] = False]), before line 361
    (the retrain), after its last line, or dead of an exception. *)
Inductive worker_pc :=
  | AtStart | AtLoop | AtSaved | AtRunning | AtRetrain | Finished | Crashed.

#[export] Instance worker_pc_eq_dec : EqDecision worker_pc.
Proof. solve_decision. Defined.

(** The locals of a [_capture_worker] thread. *)
Record worker := {
  pc : worker_pc;
  w_label : option string;
  w_interval_ms : Z;
  w_target : Z;
  w_face_only : bool;
  w_saved : list path
}.

Definition is_alive (w : worker) : bool :=
  negb (bool_decide (pc w = Finished) || bool_decide (pc w = Crashed)).

(** What the workflow does that others can see, in order. *)
Inductive event :=
  | Launched (tid : nat)
  | RunningCleared
  | Reloaded (ok : bool).

#[export] Instance event_eq_dec : EqDecision event.
Proof. solve_decision. Defined.

(** A value read from the request: absent, not convertible, or given. *)
Inductive arg (A : Type) :=
  | Absent
  | Malformed
  | Given (a : A).
Arguments Absent {A}.
Arguments Malformed {A}.
Arguments Given {A} a.

(** The parameters of [/recog/capture/start] and [/recog/register]:
    [q_label] is [request.args.get("label") or data.get("label")]. *)
Record request := {
  q_label : option string;
  q_interval_ms : arg Z;
  q_target_count : arg Z;
  q_face : option string;
  q_retrain : option string;
  q_wait : option string
}.

(** [int(request.args.get(k, data.get(k, dflt)))]: [None] is a [ValueError]. *)
Definition int_arg (dflt : Z) (a : arg Z) : option Z :=
  match a with
  | Absent => Some dflt
  | Malformed => None
  | Given n => Some n
  end.

(** [str(request.args.get(k, data.get(k, "true"))).lower() != "false"] *)
Definition not_false (a : option string) : bool :=
  negb (String.eqb (Py.lower (default "true" a)) "false").

(** [str(request.args.get("wait", data.get("wait", "false"))).lower() == "true"] *)
Definition is_true (a : option string) : bool :=
  String.eqb (Py.lower (default "false" a)) "true".

(** [not label] *)
Definition missing (l : option string) : bool :=
  match l with
  | None => true
  | Some s => String.eqb s ""
  end.

Inductive response :=
  | BadRequest400
  | NotFound404
  | Conflict409
  | ServerError500
  | CaptureStarted (status : Z)
  | CaptureReport (status : Z) (still_running : bool) (files : list path)
  | LabelDeleted.

Section Capture.
Context `{cv : OpenCV} `{cfg : Config}.

(** The process state the workflow touches.  [threads] holds every capture
    thread started so far, oldest first; [capture_thread] is the last. *)
Record system := {
  capture_state : capture_dict;
  capture_event : bool;
  threads : list worker;
  globals : recog_globals;
  data_dir : store;
  events : list event
}.

Definition system0 (root : store) : system := {|
  capture_state := capture_state0;
  capture_event := false;
  threads := [];
  globals := no_recognizer;
  data_dir := root;
  events := []
|}.

Definition capture_thread (s : system) : option worker := last (threads s).

(** What a worker iteration reads from outside: the grayscale of
    [latest_bgr_frame] and [int(time.time()*1000)]. *)
Record worker_input := {
  in_latest : option image;
  in_now_ms : Z
}.

(** [os.makedirs(save_dir, exist_ok=True); cv2.imwrite(fn, img)]; [None]
    when [save_dir] exists and is not a directory. *)
Definition imwrite (root : store) (p : path) (img : image) : option store :=
  let top := default ∅ root in
  match top !! fst p with
  | Some FsFile => None
  | Some (FsDir d) => Some (Some (<[fst p := FsDir (<[snd p := ImreadOk img]> d)]> top))
  | None => Some (Some (<[fst p := FsDir {[snd p := ImreadOk img]}]> top))
  end.

(** [_save_one_face]: the saved path if any, and the store afterwards;
    [None] when it raises. *)
Definition _save_one_face (inp : worker_input) (label : option string) (face_only : bool)
    (root : store) : option (option path * store) :=
  match in_latest inp with
  | None => Some (None, root)
  | Some gray =>
      match Py.max_by area (detectMultiScale gray) with
      | None => Some (None, root)
      | Some b =>
          let roi := if face_only then crop gray b else gray in
          if size roi =? 0 then Some (None, root)
          else
            match label with
            | None => None
            | Some l =>
                let fn := (l, "cap_" +:+ pretty (in_now_ms inp) +:+ ".jpg") in
                root' ← imwrite root fn (_prepare_face roi);
                Some (Some fn, root')
            end
      end
  end.

Definition set_thread (tid : nat) (w : worker) (s : system) : system :=
  {| capture_state := capture_state s; capture_event := capture_event s;
     threads := <[tid := w]> (threads s); globals := globals s;
     data_dir := data_dir s; events := events s |}.

Definition at_pc (w : worker) (p : worker_pc) : worker :=
  {| pc := p; w_label := w_label w; w_interval_ms := w_interval_ms w;
     w_target := w_target w; w_face_only := w_face_only w; w_saved := w_saved w |}.

(** [reload_recognizer()] called from a thread of the process. *)
Definition do_reload (s : system) : system :=
  let '(ok, g) := reload_recognizer (data_dir s) (globals s) in
  {| capture_state := capture_state s; capture_event := capture_event s;
     threads := threads s; globals := g; data_dir := data_dir s;
     events := events s ++ [Reloaded ok] |}.

(** [capture_state["running"] = False] *)
Definition clear_running (s : system) : system :=
  let c := capture_state s in
  {| capture_state :=
       {| running := false; label := label c; interval_ms := interval_ms c;
          target_count := target_count c; saved := saved c;
          face_only := face_only c; retrain_on_stop := retrain_on_stop c |};
     capture_event := capture_event s; threads := threads s;
     globals := globals s; data_dir := data_dir s;
     events := events s ++ [RunningCleared] |}.

(** One step of the thread [tid] that runs [_capture_worker] (lines 345-362). *)
Definition _capture_worker (tid : nat) (inp : worker_input) (s : system) : system :=
  match threads s !! tid with
  | None => s
  | Some w =>
      let c := capture_state s in
      match pc w with
      | AtStart =>
          set_thread tid
            {| pc := AtLoop; w_label := label c; w_interval_ms := interval_ms c;
               w_target := target_count c; w_face_only := face_only c;
               w_saved := [] |} s
      | AtLoop =>
          if negb (capture_event s) && (Z.of_nat (length (w_saved w)) <? w_target w)
          then
            match _save_one_face inp (w_label w) (w_face_only w) (data_dir s) with
            | None => set_thread tid (at_pc w Crashed) s
            | Some (fn, root') =>
                let w' :=
                  {| pc := AtLoop; w_label := w_label w;
                     w_interval_ms := w_interval_ms w; w_target := w_target w;
                     w_face_only := w_face_only w;
                     w_saved := w_saved w ++ option_list fn |} in
                {| capture_state := c; capture_event := capture_event s;
                   threads := <[tid := w']> (threads s); globals := globals s;
                   data_dir := root'; events := events s |}
            end
          else set_thread tid (at_pc w AtSaved) s
      | AtSaved =>
          {| capture_state :=
               {| running := running c; label := label c;
                  interval_ms := interval_ms c; target_count := target_count c;
                  saved := w_saved w;
                  face_only := face_only c; retrain_on_stop := retrain_on_stop c |};
             capture_event := capture_event s;
             threads := <[tid := at_pc w AtRunning]> (threads s);
             globals := globals s; data_dir := data_dir s; events := events s |}
      | AtRunning => set_thread tid (at_pc w AtRetrain) (clear_running s)
      | AtRetrain =>
          set_thread tid (at_pc w Finished)
            (if retrain_on_stop c then do_reload s else s)
      | Finished => s
      | Crashed => s
      end
  end.

(** What the other threads do while a handler waits: steps of capture
    threads, each with what it reads. *)
Definition schedule : Type := list (nat * worker_input).

(** The steps of [sched] taken until [stop] holds. *)
Fixpoint run_until (stop : system -> bool) (sched : schedule) (s : system) : system :=
  if stop s then s
  else
    match sched with
    | [] => s
    | (tid, inp) :: rest => run_until stop rest (_capture_worker tid inp s)
    end.

Definition thread_alive (s : system) : bool :=
  match capture_thread s with
  | Some w => is_alive w
  | None => false
  end.

(** [if capture_thread and capture_thread.is_alive(): capture_thread.join(timeout=2.0)]:
    the wait ends when the thread has ended or when the time is up, which is
    when [sched] is used up. *)
Definition join (sched : schedule) (s : system) : system :=
  run_until (fun s' => negb (thread_alive s')) sched s.

Definition set_event (b : bool) (s : system) : system :=
  {| capture_state := capture_state s; capture_event := b; threads := threads s;
     globals := globals s; data_dir := data_dir s; events := events s |}.

(** [capture_state.update({...}); capture_event.clear();
    capture_thread = threading.Thread(target=_capture_worker); capture_thread.start()] *)
Definition launch (l : option string) (interval target : Z) (face retrain : bool)
    (s : system) : system :=
  {| capture_state :=
       {| running := true; label := l; interval_ms := interval;
          target_count := target; saved := [];
          face_only := face; retrain_on_stop := retrain |};
     capture_event := false;
     threads := threads s ++
       [{| pc := AtStart; w_label := None; w_interval_ms := 0; w_target := 0;
           w_face_only := true; w_saved := [] |}];
     globals := globals s; data_dir := data_dir s;
     events := events s ++ [Launched (length (threads s))] |}.

Definition api_capture_start (q : request) (s : system) : response * system :=
  if missing (q_label q) then (BadRequest400, s)
  else if running (capture_state s) then (Conflict409, s)
  else
    match int_arg 200 (q_interval_ms q), int_arg 20 (q_target_count q) with
    | Some interval, Some target =>
        (CaptureStarted 200,
         launch (q_label q) interval target (not_false (q_face q))
           (not_false (q_retrain q)) s)
    | _, _ => (ServerError500, s)
    end.

Definition api_capture_stop (sched : schedule) (s : system) : response * system :=
  if negb (running (capture_state s))
  then (CaptureReport 200 false (saved (capture_state s)), s)
  else
    let s1 := set_event true s in
    let s2 := if thread_alive s1 then join sched s1 else s1 in
    (CaptureReport 200 (running (capture_state s2)) (saved (capture_state s2)), s2).

(** [sched] is what the capture threads do while the handler polls
    [capture_state.get("running")] (only with [wait]). *)
Definition api_register (q : request) (sched : schedule) (s : system) : response * system :=
  if missing (q_label q) then (BadRequest400, s)
  else
    match int_arg 500 (q_interval_ms q), int_arg 30 (q_target_count q) with
    | Some interval, Some target =>
        if running (capture_state s) then (Conflict409, s)
        else
          let s1 := launch (q_label q) interval target (not_false (q_face q))
                      (not_false (q_retrain q)) s in
          if is_true (q_wait q) then
            let s2 := run_until (fun s' => negb (running (capture_state s'))) sched s1 in
            (CaptureReport (if running (capture_state s2) then 202 else 200)
               (running (capture_state s2)) (saved (capture_state s2)), s2)
          else (CaptureStarted 202, s1)
    | _, _ => (ServerError500, s)
    end.

(** [shutil.rmtree(target_dir); os.makedirs(RECOG_DATA_DIR, exist_ok=True)] *)
Definition rmtree (l : string) (s : system) : system :=
  {| capture_state := capture_state s; capture_event := capture_event s;
     threads := threads s; globals := globals s;
     data_dir := Some (delete l (default ∅ (data_dir s))); events := events s |}.

Definition is_label_dir (root : store) (l : string) : bool :=
  match root with
  | Some top => match top !! l with Some (FsDir _) => true | _ => false end
  | None => false
  end.

Definition api_delete_label (l : option string) (sched : schedule) (s : system)
  : response * system :=
  match l with
  | None => (BadRequest400, s)
  | Some name =>
      if String.eqb name "" then (BadRequest400, s)
      else if negb (is_label_dir (data_dir s) name) then (NotFound404, s)
      else
        let s1 :=
          if running (capture_state s) && bool_decide (label (capture_state s) = Some name)
          then
            let s' := set_event true s in
            clear_running (if thread_alive s' then join sched s' else s')
          else s in
        (LabelDeleted, do_reload (rmtree name s1))
  end.

(** The steps of the workflow. *)
Inductive op :=
  | StartCapture (q : request)
  | Register (q : request) (sched : schedule)
  | StopCapture (sched : schedule)
  | Delete (l : option string) (sched : schedule)
  | WorkerStep (tid : nat) (inp : worker_input).

Definition step (s : system) (o : op) : system :=
  match o with
  | StartCapture q => snd (api_capture_start q s)
  | Register q sched => snd (api_register q sched s)
  | StopCapture sched => snd (api_capture_stop sched s)
  | Delete l sched => snd (api_delete_label l sched s)
  | WorkerStep tid inp => _capture_worker tid inp s
  end.

Definition run (s : system) (ops : list op) : system := foldl step s ops.



End Capture.

(** ** Vocabulary of the statements *)







Section StoreVocabulary.
Context `{cv : OpenCV}.

(** The store holds, in the label directory [label], a file [fn] with an
    image extension that [cv2.imread] reads as [img]. *)
Definition readable_image (root : store) (label fn : string) (img : image) : Prop :=
  exists top d,
    root = Some top /\
    top !! label = Some (FsDir d) /\
    d !! fn = Some (ImreadOk img) /\
    is_image_name fn = true.

End StoreVocabulary.

(** ** A small OpenCV for running the model

    An image is a number, its pixel count; a frame shows one 64x64 face when
    the number is positive; a trained model is the list of the ids it was
    trained on, and it predicts the id [img mod 2] at distance 5.  [contrib]
    says whether [cv2.face] exists, [trainable] whether training succeeds. *)
Module Toy.

Definition face : FaceBox := {| box_x := 0; box_y := 0; box_w := 64; box_h := 64 |}.

Definition opencv (contrib trainable : bool) : OpenCV := {|
  image := Z;
  model := list Z;
  has_face := contrib;
  detectMultiScale := fun img => if 0 <? img then [face] else [];
  downscale := fun img => img;
  rescale_box := fun b => b;
  crop := fun img _ => img;
  size := fun img => img;
  resize := fun img => img;
  lbph_train := fun _ ids => if trainable then Some ids else None;
  predict := fun _ img => Some (img mod 2, 5%float);
  mean_1f := fun _ => "5.0"
|}.

(** A store with one label directory, [alice], holding one readable image. *)
Definition alice_store (contrib trainable : bool) : @store (opencv contrib trainable) :=
  Some {[ "alice" := FsDir {[ "a.jpg" := ImreadOk (100 : @image (opencv contrib trainable)) ]} ]}.

Definition empty_store (contrib trainable : bool) : @store (opencv contrib trainable) :=
  Some ∅.

(** The configuration with a negative detection factor. *)
Definition detect_every_minus_2 : Config := {|
  ENABLE_RECOG := true;
  RECOG_THRESHOLD := 11%float;
  DETECT_EVERY_N := -2;
  RECOG_EVERY_N := 2;
  RECOG_MIN_SIDE := 48;
  VOTE_WINDOW := 5;
  VOTE_REQUIRE := 3;
  CURRENT_EXPIRE_SEC := 1.5%float
|}.

(** A cycle on a frame showing the face, with the model trained on
    [alice_store]. *)
Definition frame : @cycle_input (opencv true true) := {|
  in_gray := 100 : @image (opencv true true);
  in_recog :=
    (@reload_recognizer (opencv true true) default_config
       (alice_store true true) no_recognizer).2;
  in_clock := fun _ => 0%float
|}.

(** Requests: a capture of [target] crops for "alice" every 5 s, and a
    request that carries no label. *)
Definition start_alice (target : Z) : request := {|
  q_label := Some "alice";
  q_interval_ms := Given 5000;
  q_target_count := Given target;
  q_face := None;
  q_retrain := None;
  q_wait := None
|}.

Definition no_label : request := {|
  q_label := None;
  q_interval_ms := Absent;
  q_target_count := Absent;
  q_face := None;
  q_retrain := None;
  q_wait := None
|}.

(** What a capture thread reads at time [ms]: a frame showing the face. *)
Definition shot (ms : Z) : @worker_input (opencv true true) :=
  {| in_latest := Some (100 : @image (opencv true true)); in_now_ms := ms |}.

(** The workflow after a capture for "alice" was started on an empty store
    and its thread saved one crop. *)
Definition capturing (target : Z) : @system (opencv true true) :=
  @run (opencv true true) default_config
    (system0 (empty_store true true))
    [StartCapture (start_alice target); WorkerStep 0 (shot 0); WorkerStep 0 (shot 1000)].

End Toy.

(** ** The other endpoints (lines 599-741) and [_label_counts] *)

(** The guess a recognition cycle appends to the window:
    [best_for_vote if best_for_vote is not None else ("unknown", None)]. *)
Definition cast (best_for_vote : option vote) : vote :=
  default ("unknown", None) best_for_vote.

(** The number of recognition cycles among the cycles logged. *)
Definition recognition_cycles `{cv : OpenCV} (logs : list cycle_log) : nat :=
  length (filter (fun lg => recog_cycle lg = true) logs).

(** The answer of [/recog/reload]: [ok], the registered labels and the
    status. *)
Record labels_reply := {
  reply_ok : bool;
  reply_labels : gset string;
  reply_status : Z
}.

Inductive enroll_reply :=
  | EnrollBadRequest400
  | EnrollError500
  | Enrolled (ok : bool) (saved_as : path) (labels : gset string).

(** The parameters of [/recog/capture]. *)
Record capture_request := {
  c_label : option string;
  c_n : arg Z;
  c_retrain : option string;
  c_face : option string
}.

Inductive capture_reply :=
  | CaptureBadRequest400
  | CaptureNoFace404
  | CaptureError500
  | CaptureNoFrame503
  | Captured (ok : bool) (files : list path) (count : Z) (labels : gset string).

Section Endpoints.
Context `{cv : OpenCV} `{cfg : Config}.

(** The body of [/recog/enroll] once decoded: the label and the image.
    [Malformed] is a base64 text that [b64decode] refuses; [Absent] is a
    missing file or bytes that [cv2.imdecode] does not read. *)
Record enroll_request := {
  e_label : option string;
  e_image : arg image
}.

(** [list(label2id.keys())], as a set: the map does not keep the order in
    which the keys were inserted. *)
Definition registered (g : recog_globals) : gset string := dom (label2id g).

(** The label maps are inverse of each other, the ids are 0, 1, ... without
    a gap, and there is a model exactly when a label is registered. *)
Definition registry_ok (g : recog_globals) : Prop :=
  (forall l i, label2id g !! l = Some i <-> id2label g !! i = Some l) /\
  (forall i, is_Some (id2label g !! i) <-> 0 <= i < Z.of_nat (base.size (id2label g))) /\
  (recognizer g = None <-> label2id g = ∅).

(** [cv2.imread] reads an image at [p]. *)
Definition readable_at (root : store) (p : path) : bool :=
  match imread root p with
  | ImreadOk _ => true
  | _ => false
  end.

(** What the loop of [train_recognizer_from_dir] keeps true, [seen] being
    the pairs it has gone through. *)
Definition train_inv (root : store) (seen : list (string * path)) (a : train_acc) : Prop :=
  (forall l i, l2i a !! l = Some i <-> i2l a !! i = Some l) /\
  (forall i, is_Some (i2l a !! i) <-> 0 <= i < next_id a) /\
  next_id a = Z.of_nat (base.size (i2l a)) /\
  (forall l, is_Some (l2i a !! l) <->
             exists p, (l, p) ∈ seen /\ readable_at root p = true) /\
  length (X a) = length (y a) /\
  length (X a) =
    length (filter (fun lp : string * path => readable_at root lp.2 = true) seen) /\
  (forall i, i ∈ y a -> is_Some (i2l a !! i)).

Definition with_data_dir (root : store) (s : system) : system :=
  {| capture_state := capture_state s; capture_event := capture_event s;
     threads := threads s; globals := globals s; data_dir := root;
     events := events s |}.

(** [_label_counts]: for every label directory, the number of its entries
    with an image extension. *)
Definition _label_counts (root : store) : gmap string Z :=
  match root with
  | None => ∅
  | Some top =>
      foldl
        (fun counts d =>
           match top !! d with
           | Some (FsDir files) =>
               <[d := Z.of_nat
                        (length (filter (fun fn => is_image_name fn = true)
                                   (fst <$> map_to_list files)))]> counts
           | _ => counts
           end)
        ∅ (listdir_sorted top)
  end.

Definition api_reload (s : system) : labels_reply * system :=
  let ok := (reload_recognizer (data_dir s) (globals s)).1 in
  let s' := do_reload s in
  ({| reply_ok := ok; reply_labels := registered (globals s');
      reply_status := if ok then 200 else 500 |}, s').

(** [api_labels]: the registered labels and [ENABLE_RECOG]. *)
Definition api_labels (s : system) : gset string * bool :=
  (registered (globals s), ENABLE_RECOG).

(** [os.makedirs(save_dir, exist_ok=True)]; [None] when [save_dir] exists
    and is not a directory. *)
Definition makedirs (root : store) (l : string) : option store :=
  let top := default ∅ root in
  match top !! l with
  | Some FsFile => None
  | Some (FsDir _) => Some (Some top)
  | None => Some (Some (<[l := FsDir ∅]> top))
  end.

Definition api_clear_all (s : system) : (bool * list string) * system :=
  ((true, []), do_reload (with_data_dir (Some ∅) s)).

(** [cv2.imwrite(fn, img)]: the file is written when its directory exists;
    otherwise nothing happens, and nothing is raised. *)
Definition cv2_imwrite (root : store) (p : path) (img : image) : store :=
  match root with
  | Some top =>
      match top !! fst p with
      | Some (FsDir d) => Some (<[fst p := FsDir (<[snd p := ImreadOk img]> d)]> top)
      | _ => root
      end
  | None => root
  end.

(** [now_ms] is [int(time.time()*1000)]. *)
Definition api_enroll (q : enroll_request) (now_ms : Z) (s : system)
  : enroll_reply * system :=
  match e_image q with
  | Malformed => (EnrollError500, s)
  | Absent => (EnrollBadRequest400, s)
  | Given img =>
      match e_label q with
      | None => (EnrollBadRequest400, s)
      | Some l =>
          if String.eqb l "" then (EnrollBadRequest400, s)
          else
            match makedirs (data_dir s) l with
            | None => (EnrollError500, s)
            | Some root =>
                let fn := (l, pretty now_ms +:+ ".jpg") in
                let s1 := with_data_dir (cv2_imwrite root fn (_prepare_face img)) s in
                let ok := (reload_recognizer (data_dir s1) (globals s1)).1 in
                let s2 := do_reload s1 in
                (Enrolled ok fn (registered (globals s2)), s2)
            end
      end
  end.

(** The loop of [api_capture] over [i] in [range(max(1, n))]: [clock i] is
    [int(time.time()*1000)] at iteration [i]. *)
Fixpoint capture_copies (l : string) (roi : image) (clock : nat -> Z)
    (indices : list nat) (root : store) (saved : list path) : store * list path :=
  match indices with
  | [] => (root, saved)
  | i :: rest =>
      if size roi =? 0 then capture_copies l roi clock rest root saved
      else
        let fn := (l, "cap_" +:+ pretty (clock i) +:+ "_" +:+
                      pretty (Z.of_nat i) +:+ ".jpg") in
        capture_copies l roi clock rest
          (cv2_imwrite root fn (_prepare_face roi)) (saved ++ [fn])
  end.


(** [latest] is the grayscale of [latest_bgr_frame]. *)
Definition api_capture (q : capture_request) (latest : option image)
    (clock : nat -> Z) (s : system) : capture_reply * system :=
  match int_arg 1 (c_n q) with
  | None => (CaptureError500, s)
  | Some n =>
      let do_retrain := not_false (c_retrain q) in
      let face_only := not_false (c_face q) in
      match c_label q with
      | None => (CaptureBadRequest400, s)
      | Some l =>
          if String.eqb l "" then (CaptureBadRequest400, s)
          else
            match latest with
            | None => (CaptureNoFrame503, s)
            | Some gray =>
                match Py.max_by area (detectMultiScale gray) with
                | None => (CaptureNoFace404, s)
                | Some b =>
                    match makedirs (data_dir s) l with
                    | None => (CaptureError500, s)
                    | Some root =>
                        let roi := if face_only then crop gray b else gray in
                        let '(root', saved) :=
                          capture_copies l roi clock
                            (seq 0 (Z.to_nat (Z.max 1 n))) root [] in
                        let s1 := with_data_dir root' s in
                        let ok :=
                          if do_retrain
                          then (reload_recognizer (data_dir s1) (globals s1)).1
                          else true in
                        let s2 := if do_retrain then do_reload s1 else s1 in
                        (Captured ok saved (Z.of_nat (length saved))
                           (registered (globals s2)), s2)
                    end
                end
            end
      end
  end.

(** The calls that reach the store or the recognizer: the steps of the
    capture workflow and the other endpoints. *)
Inductive call :=
  | Workflow (o : op)
  | Reload
  | Enroll (q : enroll_request) (now_ms : Z)
  | ClearAll
  | Capture (q : capture_request) (latest : option image) (clock : nat -> Z).

Definition serve (s : system) (c : call) : system :=
  match c with
  | Workflow o => step s o
  | Reload => (api_reload s).2
  | Enroll q now_ms => (api_enroll q now_ms s).2
  | ClearAll => (api_clear_all s).2
  | Capture q latest clock => (api_capture q latest clock s).2
  end.

Definition serve_all (s : system) (calls : list call) : system := foldl serve s calls.

(** ** Vocabulary for the capture threads *)

(** A capture thread has saved no more than its target, and what it has
    saved are files with an image extension under its label. *)
Definition worker_ok (w : worker) : Prop :=
  Z.of_nat (length (w_saved w)) <= Z.max 0 (w_target w) /\
  forall p, p ∈ w_saved w -> w_label w = Some p.1 /\ is_image_name p.2 = true.


(** The session is marked as running, no capture thread is alive, and the
    label of the session has no directory. *)
Definition stuck (s : system) : Prop :=
  running (capture_state s) = true /\
  Forall (fun w => is_alive w = false) (threads s) /\
  exists l, label (capture_state s) = Some l /\ is_label_dir (data_dir s) l = false.

End Endpoints.

(** A store in which the name "alice" is taken by a regular file, and the
    workflow after a capture for "alice" was started on it and its thread
    went through one iteration. *)
Definition alice_is_a_file : @store (Toy.opencv true true) :=
  Some {[ "alice" := FsFile ]}.

Definition capture_on_a_file : @system (Toy.opencv true true) :=
  @run (Toy.opencv true true) default_config
    (system0 alice_is_a_file)
    [StartCapture (Toy.start_alice 3); WorkerStep 0 (Toy.shot 0); WorkerStep 0 (Toy.shot 1000)].

(** * Properties *)

(** ** The Python built-ins *)

Section BuiltinFacts.















(** [sorted] keeps the elements. *)
Lemma insert_sorted_Permutation {A} (le : A -> A -> bool) a l :
  Py.insert_sorted le a l ≡ₚ a :: l.
Proof.
  induction l as [|x rest IH]; simpl; [done|].
  destruct (le a x); [done|]. rewrite IH. apply Permutation_swap.
Qed.

Lemma sorted_Permutation {A} (le : A -> A -> bool) l : Py.sorted le l ≡ₚ l.
Proof.
  induction l as [|x rest IH]; simpl; [done|].
  by rewrite insert_sorted_Permutation, IH.
Qed.

End BuiltinFacts.

(** ** VoteStabilizer *)

Section VoteFacts.
Context `{cv : OpenCV} `{cfg : Config}.

Lemma elem_of_labels_in_window M (h : list vote) :
  M ∈ labels_in_window h <-> M <> "unknown" /\ exists c, (M, c) ∈ h.
Proof.
  unfold labels_in_window. rewrite list_elem_of_fmap. split.
  - intros ([l c] & -> & [Hne Hin]%list_elem_of_filter). eauto.
  - intros [Hne [c Hin]]. exists (M, c). split; [done|].
    by apply list_elem_of_filter.
Qed.







Lemma final_text_no_label (h : list vote) :
  (forall p, p ∈ h -> fst p = "unknown") -> final_text h = "unknown".
Proof.
  intros Hall. unfold final_text.
  destruct (labels_in_window h) as [|l0 ls0] eqn:Hliw; [done|].
  assert (l0 ∈ labels_in_window h) as Hin by (rewrite Hliw; left).
  apply elem_of_labels_in_window in Hin as [Hne [c Hin]].
  by specialize (Hall _ Hin).
Qed.



End VoteFacts.

Section VoteClaim.
Context `{cv : OpenCV} `{cfg : Config}.





End VoteClaim.


(** ** PipelineLoop *)

Section PipelineFacts.
Context `{cv : OpenCV} `{cfg : Config}.

(** The branches of [recognise] that leave the box "unknown" without calling
    [rec.predict]. *)
Local Ltac not_sent H :=
  simpl in H; injection H as <- _ <-; split; [discriminate|congruence].

(** When a box gets a name, and when its crop goes to [rec.predict]. *)
Lemma recognise_inv rec labels dr gray b name conf called :
  recognise rec labels dr gray b = (name, conf, called) ->
  (called = true ->
   is_Some rec /\ dr = true /\ RECOG_MIN_SIDE <= Z.min (box_w b) (box_h b)) /\
  (name <> "unknown" ->
   exists r pred_id c,
     rec = Some r /\ called = true /\
     predict r (_prepare_face (crop gray b)) = Some (pred_id, c) /\
     PrimFloat.leb c RECOG_THRESHOLD = true /\
     labels !! pred_id = Some name).
Proof.
  unfold recognise. intros Hrec.
  destruct rec as [r|]; [|not_sent Hrec].
  destruct dr; [|not_sent Hrec].
  destruct (Z.leb_spec RECOG_MIN_SIDE (Z.min (box_w b) (box_h b))) as [Hside|Hside];
    [|not_sent Hrec].
  simpl in Hrec.
  destruct (0 <? size (crop gray b)); [|not_sent Hrec].
  destruct (predict r (_prepare_face (crop gray b))) as [[pred_id c]|] eqn:Hp.
  2:{ injection Hrec as <- _ <-. split; [by eauto|congruence]. }
  injection Hrec as Hname _ <-. split; [by eauto|].
  intros Hne. exists r, pred_id, c.
  destruct (PrimFloat.leb c RECOG_THRESHOLD); [|done].
  destruct (labels !! pred_id) as [n|]; [|done]. by subst.
Qed.

Lemma cycle_faces_out st inp :
  p_bbox <$> faces_out (cycle st inp).2 = faces_iter (faces_fullres (cycle st inp).1).
Proof.
  unfold cycle. cbn [fst snd faces_out faces_fullres].
  generalize (faces_iter
    (if do_detect (frame_idx st + 1)
     then rescale_box <$> detectMultiScale (downscale (in_gray inp))
     else faces_fullres st)).
  intros l. rewrite <- list_fmap_compose, fmap_imap.
  apply list_eq. intros i. rewrite list_lookup_imap.
  destruct (l !! i) as [b|]; [|done]. simpl.
  by destruct (recognise _ _ _ _ b) as [[? ?] ?].
Qed.

Lemma elem_of_faces_iter b faces : b ∈ faces_iter faces <-> b ∈ faces.
Proof. unfold faces_iter. by rewrite sorted_Permutation. Qed.

(** The entries of a cycle, box by box. *)
Lemma cycle_results st inp :
  let i := frame_idx st + 1 in
  let lg := (cycle st inp).2 in
  let faces := faces_fullres (cycle st inp).1 in
  let rec := recognizer (in_recog inp) in
  let labels := id2label (in_recog inp) in
  recog_cycle lg = do_recog i /\
  (forall b, b ∈ predict_calls lg <->
     exists idx name conf,
       faces_iter faces !! idx = Some b /\
       recognise rec labels (do_recog i) (in_gray inp) b = (name, conf, true)) /\
  (forall p, p ∈ faces_out lg <->
     exists idx called,
       faces_iter faces !! idx = Some (p_bbox p) /\
       p_ts p = in_clock inp idx /\
       recognise rec labels (do_recog i) (in_gray inp) (p_bbox p) =
         (p_label p, p_conf p, called)).
Proof.
  unfold cycle. cbn [fst snd faces_out faces_fullres predict_calls recog_cycle].
  generalize (faces_iter
    (if do_detect (frame_idx st + 1)
     then rescale_box <$> detectMultiScale (downscale (in_gray inp))
     else faces_fullres st)).
  intros l. split; [done|]. split.
  - intros b. rewrite list_elem_of_omap. split.
    + intros ([[idx b'] [[name conf] called]] & Hin & Hcalled).
      apply elem_of_lookup_imap in Hin as (idx' & b'' & [= -> -> Hrec] & Hl).
      destruct called; [|done]. injection Hcalled as <-. eauto.
    + intros (idx & name & conf & Hl & Hrec).
      exists (idx, b, (name, conf, true)). split; [|done].
      apply elem_of_lookup_imap. exists idx, b. by rewrite Hrec.
  - intros p. rewrite list_elem_of_fmap. split.
    + intros ([[idx b] [[name conf] called]] & -> & Hin).
      apply elem_of_lookup_imap in Hin as (idx' & b'' & [= -> -> Hrec] & Hl).
      simpl. eauto.
    + intros (idx & called & Hl & Hts & Hrec).
      exists (idx, p_bbox p, (p_label p, p_conf p, called)). split.
      * destruct p. simpl in *. by rewrite Hts.
      * apply elem_of_lookup_imap. exists idx, (p_bbox p). by rewrite Hrec.
Qed.

(** C2. In every cycle, [rec.predict] gets the crop of a box only if a model
    is loaded, the cycle is a recognition cycle and the shorter side of the
    box is at least [RECOG_MIN_SIDE]; a box gets a label other than
    "unknown" only if the distance returned for it is at most
    [RECOG_THRESHOLD] and the predicted id is in the label registry of the
    cycle, the label being the name registered for that id. *)
Theorem predict_gate_and_label st inp :
  let lg := (cycle st inp).2 in
  p_bbox <$> faces_out lg = faces_iter (faces_fullres (cycle st inp).1) /\
  (forall b, b ∈ predict_calls lg ->
     b ∈ faces_fullres (cycle st inp).1 /\
     is_Some (recognizer (in_recog inp)) /\
     recog_cycle lg = true /\
     RECOG_MIN_SIDE <= Z.min (box_w b) (box_h b)) /\
  (forall b, Z.min (box_w b) (box_h b) < RECOG_MIN_SIDE -> b ∉ predict_calls lg) /\
  (forall p, p ∈ faces_out lg ->
     p_label p = "unknown" \/
     exists r pred_id c,
       recognizer (in_recog inp) = Some r /\
       recog_cycle lg = true /\
       p_bbox p ∈ predict_calls lg /\
       predict r (_prepare_face (crop (in_gray inp) (p_bbox p))) = Some (pred_id, c) /\
       PrimFloat.leb c RECOG_THRESHOLD = true /\
       id2label (in_recog inp) !! pred_id = Some (p_label p)).
Proof.
  intros lg.
  destruct (cycle_results st inp) as (Hrc & Hcalls & Hout). fold lg in Hrc, Hcalls, Hout.
  split; [apply cycle_faces_out|].
  assert (Hgate : forall b, b ∈ predict_calls lg ->
            b ∈ faces_fullres (cycle st inp).1 /\
            is_Some (recognizer (in_recog inp)) /\
            recog_cycle lg = true /\
            RECOG_MIN_SIDE <= Z.min (box_w b) (box_h b)).
  { intros b (idx & name & conf & Hl & Hrec)%Hcalls.
    apply recognise_inv in Hrec as [Hcalled _].
    destruct (Hcalled eq_refl) as (Hsome & Hdr & Hside).
    split; [|by rewrite Hrc].
    apply elem_of_faces_iter. by eapply list_elem_of_lookup_2. }
  split; [done|]. split.
  { intros b Hsmall Hin. destruct (Hgate b Hin) as (_ & _ & _ & Hside). lia. }
  intros p (idx & called & Hl & _ & Hrec)%Hout.
  destruct (decide (p_label p = "unknown")) as [|Hne]; [by left|]. right.
  pose proof Hrec as Hrec'.
  apply recognise_inv in Hrec as [_ Hname].
  destruct (Hname Hne) as (r & pred_id & c & Hr & -> & Hp & Hthr & Hlab).
  exists r, pred_id, c. split; [done|]. split.
  { apply recognise_inv in Hrec' as [Hcalled _].
    rewrite Hrc. by destruct (Hcalled eq_refl) as (_ & ? & _). }
  split; [|done]. apply Hcalls. eauto.
Qed.

Lemma cycle_frame st inp :
  frame_idx (cycle st inp).1 = frame_idx st + 1 /\
  at_frame (cycle st inp).2 = frame_idx st + 1 /\
  detect_called (cycle st inp).2 = do_detect (frame_idx st + 1) /\
  recog_cycle (cycle st inp).2 = do_recog (frame_idx st + 1).
Proof. done. Qed.

Lemma detection_loop_Some st inp rest :
  detection_loop st (Some inp :: rest) =
    ((detection_loop (cycle st inp).1 rest).1,
     (cycle st inp).2 :: (detection_loop (cycle st inp).1 rest).2).
Proof.
  cbn [detection_loop]. destruct (cycle st inp) as [st1 lg]. cbn [fst snd].
  by destruct (detection_loop st1 rest).
Qed.

(** The frames that were read are numbered from [frame_idx + 1] on; a
    failed read uses no number. *)
Lemma detection_loop_frames reads : forall st,
  let logs := (detection_loop st reads).2 in
  length logs = length (omap id reads) /\
  frame_idx (detection_loop st reads).1 = frame_idx st + Z.of_nat (length logs) /\
  at_frame <$> logs = (fun k => frame_idx st + Z.of_nat k) <$> seq 1 (length logs) /\
  Forall (fun lg => detect_called lg = do_detect (at_frame lg) /\
                    recog_cycle lg = do_recog (at_frame lg)) logs.
Proof.
  induction reads as [|[inp|] rest IH]; intros st; cbv zeta in *.
  - simpl. repeat split; [lia|constructor].
  - rewrite detection_loop_Some. cbn [fst snd].
    destruct (cycle_frame st inp) as (Hidx & Hat & Hd & Hr).
    destruct (IH (cycle st inp).1) as (Hlen & Hfin & Hats & Hall).
    cbn [length omap]. split; [by rewrite Hlen|].
    split; [rewrite Hfin, Hidx; lia|]. split.
    + rewrite fmap_cons, Hat, Hats, Hidx. cbn [seq fmap list_fmap]. f_equal.
      rewrite <- (fmap_S_seq 1), <- list_fmap_compose.
      apply list_fmap_ext. intros _ k _. simpl. lia.
    + constructor; [|done]. by rewrite Hd, Hr, Hat.
  - apply IH.
Qed.

(** C4 (as the code has it). The frames the loop processes are numbered
    1, 2, ... in the order they were read; on frame [i] the detector is
    called exactly when [i mod max(1, DETECT_EVERY_N) = 0], the box list of
    the previous cycle being kept otherwise, and the cycle is a recognition
    cycle exactly when [i mod max(1, RECOG_EVERY_N) = 0].  When the two
    factors are at least 1 these are [i mod DETECT_EVERY_N = 0] and
    [i mod RECOG_EVERY_N = 0]. *)
Theorem decimation (reads : list (option cycle_input)) :
  let logs := (detection_loop loop_start reads).2 in
  at_frame <$> logs = Z.of_nat <$> seq 1 (length (omap id reads)) /\
  Forall (fun lg =>
    (detect_called lg = true <-> at_frame lg mod Z.max 1 DETECT_EVERY_N = 0) /\
    (recog_cycle lg = true <-> at_frame lg mod Z.max 1 RECOG_EVERY_N = 0) /\
    (1 <= DETECT_EVERY_N ->
     (detect_called lg = true <-> at_frame lg mod DETECT_EVERY_N = 0)) /\
    (1 <= RECOG_EVERY_N ->
     (recog_cycle lg = true <-> at_frame lg mod RECOG_EVERY_N = 0))) logs /\
  (forall st inp,
     faces_fullres (cycle st inp).1 =
       if detect_called (cycle st inp).2
       then rescale_box <$> detectMultiScale (downscale (in_gray inp))
       else faces_fullres st).
Proof.
  intros logs.
  destruct (detection_loop_frames reads loop_start) as (Hlen & _ & Hats & Hall).
  fold logs in Hlen, Hats, Hall. split; [|split].
  - rewrite Hats, Hlen. apply list_fmap_ext. intros _ k _. simpl. lia.
  - eapply Forall_impl; [exact Hall|]. intros lg [-> ->].
    unfold do_detect, do_recog. rewrite !Z.eqb_eq.
    split; [done|]. split; [done|].
    split; intros H1; by rewrite Z.max_r by lia.
  - done.
Qed.

(** C9. [api_current] returns exactly the published entries whose
    timestamp satisfies [now - ts <= CURRENT_EXPIRE_SEC], in the order in
    which they were published. *)
Theorem current_people_expiry (now : float) (current_people : list person) :
  (forall p, p ∈ api_current now current_people <->
     p ∈ current_people /\
     PrimFloat.leb (PrimFloat.sub now (p_ts p)) CURRENT_EXPIRE_SEC = true) /\
  sublist (api_current now current_people) current_people /\
  (forall before after,
     current_people = before ++ after ->
     api_current now current_people =
       api_current now before ++ api_current now after).
Proof.
  unfold api_current. split; [|split].
  - intros p. rewrite list_elem_of_filter. tauto.
  - apply sublist_filter.
  - intros before after ->. apply filter_app.
Qed.

End PipelineFacts.

(** ** RecognizerManager *)

Section RecognizerFacts.
Context `{cv : OpenCV} `{cfg : Config}.

(** What [_iter_face_paths] yields lies in a label directory and has an
    image extension. *)
Lemma iter_face_paths_inv (root : store) label p :
  (label, p) ∈ _iter_face_paths root ->
  exists top d,
    root = Some top /\ top !! label = Some (FsDir d) /\
    p.1 = label /\ is_image_name p.2 = true.
Proof.
  unfold _iter_face_paths. destruct root as [top|]; [|by intros ?%elem_of_nil].
  intros (l & Hin & _)%list_elem_of_bind.
  destruct (top !! l) as [[|d]|] eqn:Hl; try by apply elem_of_nil in Hin.
  apply list_elem_of_fmap in Hin as (fn & [= -> ->] & [Hext _]%list_elem_of_filter).
  exists top, d. done.
Qed.

Lemma train_step_skip (root : store) a label p :
  (forall img, imread root p <> ImreadOk img) -> train_step root a (label, p) = a.
Proof.
  intros Hno. unfold train_step.
  destruct (imread root p) as [| |img]; [done..|]. by destruct (Hno img).
Qed.

Lemma train_loop_skip (root : store) pairs : forall a,
  (forall label p img, (label, p) ∈ pairs -> imread root p <> ImreadOk img) ->
  foldl (train_step root) a pairs = a.
Proof.
  induction pairs as [|[label p] rest IH]; intros a Hno; [done|].
  cbn [foldl]. rewrite train_step_skip.
  - apply IH. intros l q img Hin. apply (Hno l). by right.
  - intros img. apply (Hno label). by left.
Qed.

Lemma imread_readable (root : store) label p img :
  (label, p) ∈ _iter_face_paths root ->
  imread root p = ImreadOk img ->
  readable_image root label p.2 img.
Proof.
  intros (top & d & -> & Hd & Hl & Hext)%iter_face_paths_inv.
  unfold imread. rewrite Hl, Hd.
  destruct (d !! p.2) as [content|] eqn:Hfn; [|done].
  simpl. intros ->. by exists top, d.
Qed.

Lemma train_without_images (root : store) :
  (forall label fn img, ~ readable_image root label fn img) ->
  ENABLE_RECOG = false \/ has_face = true ->
  train_recognizer_from_dir root = Some (None, ∅, ∅).
Proof.
  intros Hno Henv. unfold train_recognizer_from_dir.
  destruct ENABLE_RECOG; [|done]. destruct Henv as [ | -> ]; [done|]. simpl.
  rewrite train_loop_skip; [done|].
  intros label p img Hin Hread. by eapply Hno, imread_readable.
Qed.

(** C10. When training raises, [reload_recognizer] reports failure and the
    active model and both label maps stay as they were; they are replaced,
    together, only when training returns. *)
Theorem reload_failure_keeps_model (root : store) (g : recog_globals) :
  train_recognizer_from_dir root = None ->
  reload_recognizer root g = (false, g) /\
  (forall g' , reload_recognizer root g = (true, g') -> False).
Proof.
  intros Hraise. unfold reload_recognizer. rewrite Hraise. split; [done|].
  intros g' [=].
Qed.

End RecognizerFacts.

Section EmptyTrainingSet.
Context `{cv : OpenCV} `{cfg : Config}.

Lemma cycle_without_model st inp :
  recognizer (in_recog inp) = None ->
  predict_calls (cycle st inp).2 = [] /\
  forall p, p ∈ faces_out (cycle st inp).2 -> p_label p = "unknown".
Proof.
  intros Hnone. destruct (cycle_results st inp) as (_ & Hcalls & Hout).
  rewrite Hnone in Hcalls, Hout. split.
  - apply elem_of_nil_inv. intros b (idx & name & conf & _ & [=])%Hcalls.
  - intros p (idx & called & _ & _ & [= <- _ _])%Hout. done.
Qed.

(** C8 (as the code has it). When recognition is disabled or OpenCV has its
    [face] module, and the training root holds no readable labelled image,
    [reload_recognizer] succeeds and installs no model and two empty label
    maps; every cycle that runs with what it installed sends nothing to
    [predict] and labels every box "unknown". *)
Theorem reload_on_empty_training_set (root : store) (g : recog_globals) :
  (forall label fn img, ~ readable_image root label fn img) ->
  ENABLE_RECOG = false \/ has_face = true ->
  reload_recognizer root g = (true, no_recognizer) /\
  forall st inp,
    in_recog inp = (reload_recognizer root g).2 ->
    predict_calls (cycle st inp).2 = [] /\
    forall p, p ∈ faces_out (cycle st inp).2 -> p_label p = "unknown".
Proof.
  intros Hno Henv.
  assert (reload_recognizer root g = (true, no_recognizer)) as Hreload.
  { unfold reload_recognizer. by rewrite train_without_images. }
  split; [done|]. intros st inp Hin. apply cycle_without_model.
  by rewrite Hin, Hreload.
Qed.

End EmptyTrainingSet.

(** ** CaptureSession *)

Section CaptureFacts.
Context `{cv : OpenCV} `{cfg : Config}.


Lemma do_reload_facts s :
  capture_state (do_reload s) = capture_state s /\
  capture_event (do_reload s) = capture_event s /\
  threads (do_reload s) = threads s /\
  data_dir (do_reload s) = data_dir s /\
  events (do_reload s) =
    events s ++ [Reloaded (reload_recognizer (data_dir s) (globals s)).1] /\
  globals (do_reload s) = (reload_recognizer (data_dir s) (globals s)).2.
Proof. unfold do_reload. by destruct (reload_recognizer _ _). Qed.












(** C6 (as the code has it). A call to [api_capture_start] made while a
    session is running changes nothing: no field of [capture_state], no
    thread, nothing else.  It answers 409 when the request carries a label
    and 400 when it carries none. *)
Theorem start_while_running (q : request) (s : system) :
  running (capture_state s) = true ->
  (api_capture_start q s).2 = s /\
  (api_capture_start q s).1 =
    if missing (q_label q) then BadRequest400 else Conflict409.
Proof.
  intros Hrun. unfold api_capture_start. rewrite Hrun.
  by destruct (missing (q_label q)).
Qed.




End CaptureFacts.

(** ** The statements at concrete inputs *)

(** With the default constants, a model trained on alice's image and a frame
    showing a 64x64 face: on frame 2 the crop goes to [predict] and, the
    distance 5 being below 11 and the id 0 registered, the box is "alice". *)
Lemma predict_gate_and_label_witness :
  let lg :=
    (@detection_loop (Toy.opencv true true) default_config loop_start
       [Some Toy.frame; Some Toy.frame]).2 in
  (p_label <$> (lg !! 1%nat ≫= fun l => head (faces_out l))) = Some "alice" /\
  is_Some (recognizer (in_recog Toy.frame)) /\
  @RECOG_MIN_SIDE default_config <= Z.min (box_w Toy.face) (box_h Toy.face).
Proof.
  split; [vm_compute; reflexivity|].
  pose proof (@predict_gate_and_label (Toy.opencv true true) default_config
                (@cycle (Toy.opencv true true) default_config loop_start Toy.frame).1
                Toy.frame) as (_ & Hgate & _).
  destruct (Hgate Toy.face) as (_ & Hmodel & _ & Hside).
  - vm_compute. left.
  - split; [exact Hmodel|exact Hside].
Defined.

(** C4, refuted as stated: with [DETECT_EVERY_N = -2] the detector runs on
    frame 1 although [1 mod -2] is not 0. *)
Lemma detect_every_negative :
  let lg := (@cycle (Toy.opencv true true) Toy.detect_every_minus_2 loop_start Toy.frame).2 in
  at_frame lg = 1 /\
  detect_called lg = true /\
  at_frame lg mod @DETECT_EVERY_N Toy.detect_every_minus_2 <> 0.
Proof. vm_compute. repeat split; discriminate. Qed.

Lemma decimation_witness :
  (fun lg => (at_frame lg, detect_called lg, recog_cycle lg)) <$>
    (@detection_loop (Toy.opencv true true) default_config loop_start
       [Some Toy.frame; None; Some Toy.frame; Some Toy.frame]).2 =
  [(1, true, false); (2, true, true); (3, true, false)] /\
  Forall (fun lg => recog_cycle lg = true <-> at_frame lg mod 2 = 0)
    (@detection_loop (Toy.opencv true true) default_config loop_start
       [Some Toy.frame; None; Some Toy.frame; Some Toy.frame]).2.
Proof.
  split; [vm_compute; reflexivity|].
  pose proof (@decimation (Toy.opencv true true) default_config
                [Some Toy.frame; None; Some Toy.frame; Some Toy.frame])
    as (_ & Hall & _).
  eapply Forall_impl; [exact Hall|].
  intros lg (_ & _ & _ & Hrecog). apply Hrecog. vm_compute. discriminate.
Defined.

(** Two entries stamped 10.0 and 8.0 read at 10.5 with an expiry of 1.5 s:
    the first is kept, the second is not. *)
Lemma current_people_expiry_witness :
  let fresh := {| p_label := "alice"; p_conf := None; p_bbox := Toy.face; p_ts := 10%float |} in
  let stale := {| p_label := "bob"; p_conf := None; p_bbox := Toy.face; p_ts := 8%float |} in
  fresh ∈ @api_current default_config 10.5%float [stale; fresh] /\
  stale ∉ @api_current default_config 10.5%float [stale; fresh].
Proof.
  intros fresh stale.
  pose proof (@current_people_expiry default_config 10.5%float [stale; fresh]) as [Hiff _].
  split.
  - apply Hiff. split; [right; left|vm_compute; reflexivity].
  - intros [_ Hle]%Hiff. vm_compute in Hle. discriminate.
Defined.

(** Training raises on alice's image when the recognizer cannot be trained;
    the model in place stays. *)
Lemma reload_failure_keeps_model_witness :
  let g : @recog_globals (Toy.opencv true false) :=
    {| recognizer := Some ([7] : @model (Toy.opencv true false));
       label2id := {["bob" := 7]}; id2label := {[7 := "bob"]} |} in
  @reload_recognizer (Toy.opencv true false) default_config
    (Toy.alice_store true false) g = (false, g).
Proof.
  intros g.
  apply (@reload_failure_keeps_model (Toy.opencv true false) default_config
           (Toy.alice_store true false) g).
  vm_compute. reflexivity.
Defined.

(** C8, refuted as stated: without the [face] module of OpenCV, reloading
    from an empty training root fails. *)
Lemma reload_fails_without_face_module :
  (forall label fn img,
     ~ @readable_image (Toy.opencv false true) (Toy.empty_store false true) label fn img) /\
  (@reload_recognizer (Toy.opencv false true) default_config
     (Toy.empty_store false true) no_recognizer).1 = false.
Proof.
  split; [|vm_compute; reflexivity].
  intros label fn img (top & d & [= <-] & Hd & _).
  by rewrite lookup_empty in Hd.
Qed.

Lemma reload_on_empty_training_set_witness :
  @reload_recognizer (Toy.opencv true true) default_config
    (Toy.empty_store true true) (in_recog Toy.frame) = (true, no_recognizer).
Proof.
  apply (@reload_on_empty_training_set (Toy.opencv true true) default_config).
  - intros label fn img (top & d & [= <-] & Hd & _).
    by rewrite lookup_empty in Hd.
  - right. reflexivity.
Defined.




(** C6, refuted as stated: while alice's capture is running, a request
    without a label is answered 400, not 409. *)
Lemma start_without_label_while_running :
  running (capture_state (Toy.capturing 2)) = true /\
  (@api_capture_start (Toy.opencv true true) Toy.no_label (Toy.capturing 2)).1
    = BadRequest400.
Proof. vm_compute. split; reflexivity. Qed.

Lemma start_while_running_witness :
  @api_capture_start (Toy.opencv true true) (Toy.start_alice 5) (Toy.capturing 2)
    = (Conflict409, Toy.capturing 2).
Proof.
  destruct (@start_while_running (Toy.opencv true true) (Toy.start_alice 5)
              (Toy.capturing 2)) as [Hstate Hanswer].
  - vm_compute. reflexivity.
  - rewrite (surjective_pairing (api_capture_start _ _)), Hstate, Hanswer.
    reflexivity.
Defined.



(** * Further properties *)

(** ** The vote window as a ring buffer *)

Section WindowFacts.
Context `{cv : OpenCV} `{cfg : Config}.

Lemma vote_maxlen_pos : (1 <= vote_maxlen)%nat.
Proof. unfold vote_maxlen. lia. Qed.

Lemma deque_append_suffix {A} (n : nat) (x : A) (d : list A) :
  (length d <= n)%nat -> (1 <= n)%nat ->
  Py.deque_append n x d = drop (length (d ++ [x]) - n) (d ++ [x]).
Proof.
  intros Hd Hn. unfold Py.deque_append. rewrite length_app. simpl.
  destruct (Nat.ltb_spec n (length d + 1)) as [Hfull|Hroom].
  - by replace (length d + 1 - n)%nat with 1%nat by lia.
  - by replace (length d + 1 - n)%nat with 0%nat by lia.
Qed.

Lemma length_deque_append {A} (n : nat) (x : A) (d : list A) :
  (length d <= n)%nat -> (1 <= n)%nat ->
  length (Py.deque_append n x d) = Nat.min (S (length d)) n.
Proof.
  intros Hd Hn. rewrite deque_append_suffix by done.
  rewrite length_drop, !length_app. cbn [length]. lia.
Qed.

(** Dropping down to the last [m], appending, and dropping again is dropping
    once. *)
Lemma drop_to_last_app {A} (m : nat) (l r : list A) :
  let kept := drop (length l - m) l in
  drop (length (kept ++ r) - m) (kept ++ r) = drop (length (l ++ r) - m) (l ++ r).
Proof.
  intros kept. destruct (Nat.le_gt_cases (length l) m) as [Hle|Hgt].
  - unfold kept. replace (length l - m)%nat with 0%nat by lia. by rewrite drop_0.
  - assert (length kept = m) as Hkept by (unfold kept; rewrite length_drop; lia).
    rewrite !length_app, Hkept.
    replace (length l + length r - m)%nat
      with ((length l - m) + length r)%nat by lia.
    rewrite <- drop_drop, (drop_app_le l r (length l - m)) by lia. fold kept.
    f_equal. lia.
Qed.

Lemma push_votes_suffix (bs : list (option vote)) : forall h,
  (length h <= vote_maxlen)%nat ->
  foldl (fun h b => push_vote b h) h bs =
    drop (length (h ++ (cast <$> bs)) - vote_maxlen) (h ++ (cast <$> bs)).
Proof.
  induction bs as [|b bs IH]; intros h Hh.
  - simpl. rewrite app_nil_r.
    by replace (length h - vote_maxlen)%nat with 0%nat by lia.
  - cbn [foldl]. pose proof vote_maxlen_pos as Hpos.
    rewrite IH.
    2:{ unfold push_vote. rewrite length_deque_append by done. lia. }
    unfold push_vote. rewrite deque_append_suffix by done. fold (cast b).
    rewrite drop_to_last_app.
    by rewrite <- !app_assoc.
Qed.

(** X1. The window holds the guesses of the last [max(1, VOTE_WINDOW)]
    recognition cycles, oldest first, and all of them when there were
    fewer. *)
Theorem vote_window_keeps_last_guesses (bs : list (option vote)) :
  let w := foldl (fun h b => push_vote b h) [] bs in
  w = drop (length bs - vote_maxlen) (cast <$> bs) /\
  length w = Nat.min (length bs) vote_maxlen.
Proof.
  cbv zeta. rewrite push_votes_suffix by (simpl; lia). simpl.
  rewrite length_fmap. split; [done|].
  rewrite length_drop, length_fmap. lia.
Qed.



(** X2. Whatever the window held, after [max(1, VOTE_WINDOW)] recognition
    cycles in a row whose guess is "unknown" the smoothed label is
    "unknown". *)
Theorem window_flushed_by_unknown (h : list vote) (bs : list (option vote)) :
  (length h <= vote_maxlen)%nat ->
  (vote_maxlen <= length bs)%nat ->
  (forall b, b ∈ bs -> (cast b).1 = "unknown") ->
  final_text (foldl (fun h b => push_vote b h) h bs) = "unknown".
Proof.
  intros Hh Hbs Hunknown. rewrite push_votes_suffix by done.
  apply final_text_no_label. intros p Hp.
  rewrite length_app, length_fmap, drop_app_ge in Hp by lia.
  apply subseteq_drop in Hp.
  apply list_elem_of_fmap in Hp as (b & -> & Hb). by apply Hunknown.
Qed.

End WindowFacts.

(** ** The window along the loop, and the primary box *)

Section LoopWindowFacts.
Context `{cv : OpenCV} `{cfg : Config}.

(** What a cycle does to the window, and what it draws. *)
Lemma cycle_pred_hist st inp :
  pred_hist (cycle st inp).1 =
    (if recog_cycle (cycle st inp).2
     then push_vote ((fun p => (p_label p, p_conf p)) <$> head (faces_out (cycle st inp).2))
            (pred_hist st)
     else pred_hist st) /\
  drawn_text (cycle st inp).2 = final_text (pred_hist (cycle st inp).1).
Proof.
  unfold cycle. cbn [fst snd pred_hist recog_cycle faces_out drawn_text].
  split; [|done].
  destruct (do_recog (frame_idx st + 1)); [|done]. f_equal.
  generalize (faces_iter
    (if do_detect (frame_idx st + 1)
     then rescale_box <$> detectMultiScale (downscale (in_gray inp))
     else faces_fullres st)).
  intros [|b l]; [done|]. simpl.
  by destruct (recognise _ _ _ _ b) as [[? ?] ?].
Qed.

Lemma length_push_vote b (h : list vote) :
  (length h <= vote_maxlen)%nat ->
  length (push_vote b h) = Nat.min (S (length h)) vote_maxlen.
Proof.
  intros Hh. unfold push_vote. apply length_deque_append; [done|].
  apply vote_maxlen_pos.
Qed.

Lemma recognition_cycles_cons lg logs :
  recognition_cycles (lg :: logs) =
    ((if recog_cycle lg then 1 else 0) + recognition_cycles logs)%nat.
Proof.
  unfold recognition_cycles. rewrite filter_cons.
  destruct (recog_cycle lg); by case_decide.
Qed.

(** Along the loop: the length of the window, and the window behind each
    text that was drawn. *)
Lemma detection_loop_window reads : forall st,
  (length (pred_hist st) <= vote_maxlen)%nat ->
  let logs := (detection_loop st reads).2 in
  length (pred_hist (detection_loop st reads).1) =
    Nat.min (length (pred_hist st) + recognition_cycles logs) vote_maxlen /\
  forall k lg, logs !! k = Some lg ->
    exists h : list vote,
      drawn_text lg = final_text h /\
      length h =
        Nat.min (length (pred_hist st) + recognition_cycles (take (S k) logs))
          vote_maxlen.
Proof.
  induction reads as [|[inp|] rest IH]; intros st Hst; cbv zeta in *.
  - simpl. split; [unfold recognition_cycles; simpl; lia|].
    intros k lg Hk. by rewrite lookup_nil in Hk.
  - rewrite detection_loop_Some. cbn [fst snd].
    destruct (cycle_pred_hist st inp) as [Hhist Hdrawn].
    assert (length (pred_hist (cycle st inp).1) =
            Nat.min (length (pred_hist st) +
                     if recog_cycle (cycle st inp).2 then 1 else 0) vote_maxlen)
      as Hlen.
    { rewrite Hhist. destruct (recog_cycle (cycle st inp).2).
      - rewrite length_push_vote by done. lia.
      - lia. }
    destruct (IH (cycle st inp).1) as [Hfin Hlogs]; [lia|].
    split.
    + rewrite Hfin, Hlen, recognition_cycles_cons. lia.
    + intros [|k] lg Hk.
      * injection Hk as <-. exists (pred_hist (cycle st inp).1).
        split; [done|]. rewrite Hlen. cbn [take].
        rewrite take_0, recognition_cycles_cons.
        change (recognition_cycles []) with 0%nat. lia.
      * destruct (Hlogs k lg Hk) as (h & Hh & Hhlen). exists h.
        split; [done|]. rewrite Hhlen, Hlen. cbn [take].
        rewrite recognition_cycles_cons. lia.
  - apply IH. done.
Qed.

(** X3. After any run of the loop the window holds as many guesses as there
    were recognition cycles, up to [max(1, VOTE_WINDOW)]; a cycle that is
    not a recognition cycle leaves the window as it is. *)
Theorem window_counts_recognition_cycles (reads : list (option cycle_input)) :
  length (pred_hist (detection_loop loop_start reads).1) =
    Nat.min (recognition_cycles (detection_loop loop_start reads).2) vote_maxlen /\
  forall st inp,
    recog_cycle (cycle st inp).2 = false ->
    pred_hist (cycle st inp).1 = pred_hist st.
Proof.
  split.
  - destruct (detection_loop_window reads loop_start) as [Hlen _]; [simpl; lia|].
    by rewrite Hlen.
  - intros st inp Hno. destruct (cycle_pred_hist st inp) as [-> _].
    by rewrite Hno.
Qed.


End LoopWindowFacts.

(** ** Sorting, and the primary box *)

Section SortFacts.




(** [max] seen from the tail of the list. *)
Lemma max_from_tail {A} (key : A -> Z) (rest : list A) : forall x,
  Py.max_from key x rest =
    match Py.max_by key rest with
    | None => x
    | Some m => if key x <? key m then m else x
    end.
Proof.
  induction rest as [|y r IH]; intros x; [done|].
  cbn [Py.max_from Py.max_by]. rewrite (IH y), IH.
  destruct (Py.max_by key r) as [m|].
  - destruct (Z.ltb_spec (key x) (key y)), (Z.ltb_spec (key y) (key m));
      repeat (case_match; try rewrite Z.ltb_lt in *; try rewrite Z.ltb_ge in *);
      done || lia.
  - done.
Qed.

Lemma head_insert_sorted {A} (le : A -> A -> bool) a l :
  head (Py.insert_sorted le a l) =
    match head l with
    | None => Some a
    | Some x => Some (if le a x then a else x)
    end.
Proof. destruct l as [|x rest]; simpl; [done|]. by destruct (le a x). Qed.

(** The first element of a list sorted by decreasing key is the element
    [max] returns. *)
Lemma head_sorted_max {A} (key : A -> Z) l :
  head (Py.sorted (fun a b => key b <=? key a) l) = Py.max_by key l.
Proof.
  induction l as [|x rest IH]; [done|].
  cbn [Py.sorted Py.max_by]. rewrite head_insert_sorted, IH, max_from_tail.
  destruct (Py.max_by key rest) as [m|]; [|done]. f_equal.
  destruct (Z.leb_spec (key m) (key x)), (Z.ltb_spec (key x) (key m)); done || lia.
Qed.

End SortFacts.

Section PrimaryFacts.
Context `{cv : OpenCV} `{cfg : Config}.


(** X6. On a recognition cycle the guess appended to the window is the label
    and confidence published for the primary box, the largest one, or
    ("unknown", None) when there is no box; on another cycle nothing is
    appended. *)
Theorem vote_is_for_primary_box st inp :
  let lg := (cycle st inp).2 in
  pred_hist (cycle st inp).1 =
    (if recog_cycle lg
     then Py.deque_append vote_maxlen
            (cast ((fun p => (p_label p, p_conf p)) <$> head (faces_out lg)))
            (pred_hist st)
     else pred_hist st) /\
  p_bbox <$> head (faces_out lg) = Py.max_by area (faces_fullres (cycle st inp).1).
Proof.
  split; [apply cycle_pred_hist|].
  pose proof (cycle_faces_out st inp) as Hout.
  rewrite <- head_sorted_max. fold (faces_iter (faces_fullres (cycle st inp).1)).
  rewrite <- Hout. by destruct (faces_out (cycle st inp).2).
Qed.

(** What [recognise] returns as confidence. *)
Lemma recognise_conf rec labels dr gray b name conf called :
  recognise rec labels dr gray b = (name, conf, called) ->
  (dr = false -> name = "unknown" /\ conf = None) /\
  (is_Some conf -> called = true) /\
  (name <> "unknown" ->
   exists c, conf = Some c /\ PrimFloat.leb c RECOG_THRESHOLD = true).
Proof.
  unfold recognise. intros Hrec.
  assert (Hskip : ("unknown", @None float, false) = (name, conf, called) ->
            (dr = false -> name = "unknown" /\ conf = None) /\
            (is_Some conf -> called = true) /\
            (name <> "unknown" ->
             exists c, conf = Some c /\ PrimFloat.leb c RECOG_THRESHOLD = true)).
  { intros [= <- <- <-]. split; [done|]. split; [by intros [? ?]|done]. }
  destruct rec as [r|]; [|by apply Hskip].
  destruct dr; [|by apply Hskip].
  destruct (RECOG_MIN_SIDE <=? Z.min (box_w b) (box_h b)); [|by apply Hskip].
  simpl in Hrec.
  destruct (0 <? size (crop gray b)); [|by apply Hskip]. clear Hskip.
  destruct (predict r (_prepare_face (crop gray b))) as [[pred_id c]|].
  2:{ injection Hrec as <- <- <-. split; [done|]. split; [by intros [? ?]|done]. }
  injection Hrec as Hname <- <-. split; [done|]. split; [done|].
  intros Hne. exists c. split; [done|].
  destruct (PrimFloat.leb c RECOG_THRESHOLD); [done|]. by destruct Hne.
Qed.

(** X7. On a cycle that is not a recognition cycle every box is published as
    "unknown" without a confidence.  On every cycle, a box published with a
    name carries a confidence, at most [RECOG_THRESHOLD], and a box that
    carries a confidence went to [rec.predict]. *)
Theorem published_label_and_confidence st inp (p : person) :
  let lg := (cycle st inp).2 in
  p ∈ faces_out lg ->
  (recog_cycle lg = false -> p_label p = "unknown" /\ p_conf p = None) /\
  (p_label p <> "unknown" ->
   exists c, p_conf p = Some c /\ PrimFloat.leb c RECOG_THRESHOLD = true) /\
  (is_Some (p_conf p) -> p_bbox p ∈ predict_calls lg).
Proof.
  intros lg Hp. destruct (cycle_results st inp) as (Hrc & Hcalls & Hout).
  fold lg in Hrc, Hcalls, Hout.
  apply Hout in Hp as (idx & called & Hl & _ & Hrec).
  pose proof (recognise_conf _ _ _ _ _ _ _ _ Hrec) as (Hoff & Hsent & Hnamed).
  split; [by rewrite Hrc|]. split; [done|].
  intros Hsome. apply Hcalls. exists idx, (p_label p), (p_conf p).
  split; [done|]. by rewrite Hrec, (Hsent Hsome).
Qed.

End PrimaryFacts.

(** ** The training store *)

Section StringFacts.

Lemma string_app_cons c s t : String c s +:+ t = String c (s +:+ t).
Proof. reflexivity. Qed.

Lemma string_length_app s t :
  String.length (s +:+ t) = (String.length s + String.length t)%nat.
Proof.
  induction s as [|c s IH]; [done|].
  rewrite string_app_cons. simpl. by rewrite IH.
Qed.

Lemma substring_all t : String.substring 0 (String.length t) t = t.
Proof. induction t as [|c t IH]; simpl; [done|]. by rewrite IH. Qed.

Lemma substring_app_tail s t :
  String.substring (String.length s) (String.length t) (s +:+ t) = t.
Proof.
  induction s as [|c s IH]; [apply substring_all|].
  by rewrite string_app_cons.
Qed.

Lemma endswith_app s t : Py.endswith (s +:+ t) t = true.
Proof.
  unfold Py.endswith. rewrite string_length_app.
  replace (String.length s + String.length t - String.length t)%nat
    with (String.length s) by lia.
  rewrite substring_app_tail, String.eqb_refl, andb_true_r.
  apply Nat.leb_le. lia.
Qed.

Lemma lower_app s t : Py.lower (s +:+ t) = Py.lower s +:+ Py.lower t.
Proof.
  induction s as [|c s IH]; [done|].
  rewrite string_app_cons. simpl. by rewrite IH.
Qed.

(** A name made by appending ".jpg" passes the extension test. *)
Lemma is_image_name_jpg s : is_image_name (s +:+ ".jpg") = true.
Proof.
  unfold is_image_name. rewrite lower_app.
  change (Py.lower ".jpg") with ".jpg". by rewrite endswith_app.
Qed.

End StringFacts.

Section StoreFacts.
Context `{cv : OpenCV}.

Lemma elem_of_listdir_sorted {A} (m : gmap string A) x :
  x ∈ listdir_sorted m <-> is_Some (m !! x).
Proof.
  unfold listdir_sorted. rewrite sorted_Permutation, list_elem_of_fmap. split.
  - intros ([k v] & -> & Hkv%elem_of_map_to_list). by exists v.
  - intros [v Hv]. exists (x, v). split; [done|]. by apply elem_of_map_to_list.
Qed.

Lemma NoDup_listdir_sorted {A} (m : gmap string A) : NoDup (listdir_sorted m).
Proof.
  unfold listdir_sorted. rewrite sorted_Permutation.
  apply NoDup_fst_map_to_list.
Qed.


Lemma NoDup_iter_face_paths (root : store) : NoDup (_iter_face_paths root).
Proof.
  unfold _iter_face_paths. destruct root as [top|]; [|constructor].
  apply NoDup_bind; [| |apply NoDup_listdir_sorted].
  - intros l1 l2 [l p] _ _ Hy1 Hy2.
    destruct (top !! l1) as [[|d1]|]; try by apply elem_of_nil in Hy1.
    destruct (top !! l2) as [[|d2]|]; try by apply elem_of_nil in Hy2.
    apply list_elem_of_fmap in Hy1 as (fn1 & [= Hl1 _] & _).
    apply list_elem_of_fmap in Hy2 as (fn2 & [= Hl2 _] & _). congruence.
  - intros l _. destruct (top !! l) as [[|d]|]; try constructor.
    apply NoDup_fmap_2; [by intros fn1 fn2 [= ->]|].
    apply NoDup_filter, NoDup_listdir_sorted.
Qed.

Lemma elem_of_iter_face_paths (root : store) l p :
  (l, p) ∈ _iter_face_paths root <->
  exists top d,
    root = Some top /\ top !! l = Some (FsDir d) /\
    p.1 = l /\ is_Some (d !! p.2) /\ is_image_name p.2 = true.
Proof.
  unfold _iter_face_paths. destruct root as [top|].
  2:{ split; [by intros ?%elem_of_nil|by intros (? & ? & [=] & _)]. }
  rewrite list_elem_of_bind. split.
  - intros (l' & Hin & Hl').
    destruct (top !! l') as [[|d]|] eqn:Hd; try by apply elem_of_nil in Hin.
    apply list_elem_of_fmap in Hin as (fn & [= -> ->] & Hfn).
    apply list_elem_of_filter in Hfn as [Hext Hfn%elem_of_listdir_sorted].
    by exists top, d.
  - intros (top' & d & [= <-] & Hd & Hp & Hfn & Hext).
    exists l. rewrite Hd. split; [|apply elem_of_listdir_sorted; eauto].
    apply list_elem_of_fmap. exists p.2. split.
    + destruct p as [pl pf]. simpl in *. by subst.
    + apply list_elem_of_filter. split; [done|].
      by apply elem_of_listdir_sorted.
Qed.

(** X9. [_iter_face_paths] yields, once each, the entries with an image
    extension of the label directories, each with the name of its
    directory as label. *)
Theorem iter_face_paths_yields (root : store) :
  NoDup (_iter_face_paths root) /\
  forall l p,
    (l, p) ∈ _iter_face_paths root <->
    exists top d,
      root = Some top /\ top !! l = Some (FsDir d) /\
      p.1 = l /\ is_Some (d !! p.2) /\ is_image_name p.2 = true.
Proof.
  split; [apply NoDup_iter_face_paths|]. intros l p. apply elem_of_iter_face_paths.
Qed.

(** A pair is yielded and read exactly when it is a readable image of the
    store. *)
Lemma yielded_and_read (root : store) l p :
  (l, p) ∈ _iter_face_paths root /\ readable_at root p = true <->
  p.1 = l /\ exists img, readable_image root l p.2 img.
Proof.
  unfold readable_at. split.
  - intros [Hin Hread].
    destruct (imread root p) as [| |img] eqn:Himg; try done.
    split; [|exists img; by eapply imread_readable].
    by apply elem_of_iter_face_paths in Hin as (? & ? & _ & _ & ? & _).
  - intros [Hp (img & top & d & -> & Hd & Hfn & Hext)].
    split.
    + apply elem_of_iter_face_paths. exists top, d. by rewrite Hfn.
    + unfold imread. by rewrite Hp, Hd, Hfn.
Qed.

End StoreFacts.

(** ** Training *)

Section TrainFacts.
Context `{cv : OpenCV} `{cfg : Config}.

(** The seven parts of [train_inv], in order. *)
Local Ltac train_inv_parts :=
  unfold train_inv; cbn [X y l2i i2l next_id];
  refine (conj _ (conj _ (conj _ (conj _ (conj _ (conj _ _)))))).

Lemma train_inv_start (root : store) :
  train_inv root [] {| X := []; y := []; l2i := ∅; i2l := ∅; next_id := 0 |}.
Proof.
  train_inv_parts.
  - intros l i. by rewrite !lookup_empty.
  - intros i. rewrite lookup_empty. split; [by intros [? ?]|lia].
  - done.
  - intros l. rewrite lookup_empty. split; [by intros [? ?]|].
    intros (p & Hp & _). by apply elem_of_nil in Hp.
  - done.
  - done.
  - by intros i ?%elem_of_nil.
Qed.

Lemma train_inv_step (root : store) seen a pair :
  train_inv root seen a ->
  train_inv root (seen ++ [pair]) (train_step root a pair).
Proof.
  intros (Hinv & Hdense & Hnext & Hreg & Hlen & Hcount & Hy).
  destruct pair as [label p]. unfold train_step.
  assert (Hskip : readable_at root p = false -> train_inv root (seen ++ [(label, p)]) a).
  { intros Hno. train_inv_parts; try done.
    - intros l. rewrite Hreg. split.
      + intros (q & Hq & Hr). exists q. split; [|done]. apply elem_of_app. by left.
      + intros (q & [Hq|Hq%list_elem_of_singleton]%elem_of_app & Hr); [by eauto|].
        injection Hq as -> ->. congruence.
    - rewrite filter_app, length_app, filter_cons_False, filter_nil by (simpl; congruence).
      simpl. lia. }
  destruct (imread root p) as [| |img] eqn:Hread;
    [apply Hskip; unfold readable_at; by rewrite Hread..|].
  clear Hskip.
  assert (readable_at root p = true) as Hok by (unfold readable_at; by rewrite Hread).
  assert (Hcount' :
    length (X a ++ [_prepare_face img]) =
    length (filter (fun lp : string * path => readable_at root lp.2 = true)
              (seen ++ [(label, p)]))).
  { rewrite filter_app, !length_app, filter_cons_True, filter_nil by done.
    simpl. lia. }
  assert (Hseen : forall l,
    (exists q, (l, q) ∈ seen ++ [(label, p)] /\ readable_at root q = true) <->
    l = label \/ is_Some (l2i a !! l)).
  { intros l. rewrite Hreg. split.
    - intros (q & [Hq|Hq%list_elem_of_singleton]%elem_of_app & Hr); [by eauto|].
      injection Hq as -> ->. by left.
    - intros [->|(q & Hq & Hr)].
      + exists p. split; [|done]. apply elem_of_app. right. by left.
      + exists q. split; [|done]. apply elem_of_app. by left. }
  destruct (l2i a !! label) as [i|] eqn:Hlabel; train_inv_parts; try done.
  - intros l. rewrite Hseen. split; [by right|].
    intros [->|?]; [by rewrite Hlabel|done].
  - rewrite !length_app. simpl. lia.
  - intros j [Hj|Hj%list_elem_of_singleton]%elem_of_app; [by apply Hy|].
    subst j. exists label. by apply Hinv.
  - assert (i2l a !! next_id a = None) as Hfresh.
    { apply eq_None_not_Some. intros Hsome%Hdense. lia. }
    intros l i. destruct (decide (label = l)) as [<-|Hne],
      (decide (next_id a = i)) as [<-|Hni];
      rewrite ?lookup_insert_eq, ?lookup_insert_ne by done.
    + done.
    + split; [congruence|]. intros Hi%Hinv. congruence.
    + split; [|congruence]. intros Hl%Hinv. congruence.
    + apply Hinv.
  - intros i. destruct (decide (next_id a = i)) as [<-|Hni].
    + rewrite lookup_insert_eq. split; [lia|done].
    + rewrite lookup_insert_ne, Hdense by done. lia.
  - rewrite map_size_insert_None; [lia|].
    apply eq_None_not_Some. intros Hsome%Hdense. lia.
  - intros l. rewrite Hseen. destruct (decide (label = l)) as [<-|Hne].
    + rewrite lookup_insert_eq. split; [by left|done].
    + rewrite lookup_insert_ne by done. split; [by right|].
      intros [->|?]; done.
  - rewrite !length_app. simpl. lia.
  - intros j [Hj|Hj%list_elem_of_singleton]%elem_of_app.
    + destruct (decide (next_id a = j)) as [<-|Hni]; [by rewrite lookup_insert_eq|].
      rewrite lookup_insert_ne by done. by apply Hy.
    + subst j. by rewrite lookup_insert_eq.
Qed.

Lemma train_inv_loop (root : store) pairs :
  train_inv root pairs
    (foldl (train_step root)
       {| X := []; y := []; l2i := ∅; i2l := ∅; next_id := 0 |} pairs).
Proof.
  induction pairs as [|pair pairs IH] using rev_ind; [apply train_inv_start|].
  rewrite foldl_app. by apply train_inv_step.
Qed.

End TrainFacts.

Section RegistryFacts.
Context `{cv : OpenCV} `{cfg : Config}.

(** What [train_recognizer_from_dir] returns, by cases. *)
Lemma train_cases (root : store) r m m' :
  train_recognizer_from_dir root = Some (r, m, m') ->
  (r = None /\ m = ∅ /\ m' = ∅ /\
   (ENABLE_RECOG = true ->
    filter (fun lp : string * path => readable_at root lp.2 = true)
      (_iter_face_paths root) = [])) \/
  (exists a rec,
     train_inv root (_iter_face_paths root) a /\
     X a <> [] /\ lbph_train (X a) (y a) = Some rec /\
     r = Some rec /\ m = l2i a /\ m' = i2l a).
Proof.
  unfold train_recognizer_from_dir.
  destruct ENABLE_RECOG; simpl; [|intros [= <- <- <-]; left; by repeat split].
  destruct has_face; simpl; [|done].
  pose proof (train_inv_loop root (_iter_face_paths root)) as Hinv.
  set (a := foldl _ _ _) in *.
  destruct (X a) as [|x xs] eqn:HX.
  - intros [= <- <- <-]. left. repeat split. intros _.
    destruct Hinv as (_ & _ & _ & _ & _ & Hcount & _).
    rewrite HX in Hcount. symmetry in Hcount. by apply length_zero_iff_nil in Hcount.
  - destruct (lbph_train (x :: xs) (y a)) as [rec|] eqn:Htrain; [|done].
    intros [= <- <- <-]. right. exists a, rec. rewrite HX.
    split; [exact Hinv|]. by repeat split.
Qed.

Lemma registry_ok_no_recognizer : registry_ok no_recognizer.
Proof.
  unfold registry_ok. simpl. split; [|split]; [| |done].
  - intros l i. by rewrite !lookup_empty.
  - intros i. rewrite lookup_empty, map_size_empty. split; [by intros [? ?]|lia].
Qed.

Lemma registry_ok_trained (root : store) r m m' :
  train_recognizer_from_dir root = Some (r, m, m') ->
  registry_ok {| recognizer := r; label2id := m; id2label := m' |}.
Proof.
  intros [(-> & -> & -> & _)|(a & rec & Hinv & HX & _ & -> & -> & ->)]%train_cases.
  - apply registry_ok_no_recognizer.
  - destruct Hinv as (Hinv & Hdense & Hnext & Hreg & _ & Hcount & _).
    unfold registry_ok. simpl. split; [done|]. split.
    + intros i. rewrite Hdense, Hnext. done.
    + split; [done|]. intros Hempty. destruct HX.
      apply length_zero_iff_nil. rewrite Hcount. apply length_zero_iff_nil.
      apply elem_of_nil_inv. intros [l p] [Hr Hin]%list_elem_of_filter.
      assert (is_Some (l2i a !! l)) as [i Hi] by (apply Hreg; eauto).
      by rewrite Hempty, lookup_empty in Hi.
Qed.

(** X10. The two label maps that training returns are inverse of each other,
    the ids are 0, 1, ... up to the number of labels, without a gap, and a
    model comes with them exactly when they are not empty. *)
Theorem trained_registry_is_dense_and_inverse (root : store) r m m' :
  train_recognizer_from_dir root = Some (r, m, m') ->
  (forall l i, m !! l = Some i <-> m' !! i = Some l) /\
  (forall i, is_Some (m' !! i) <-> 0 <= i < Z.of_nat (base.size m')) /\
  (r = None <-> m = ∅).
Proof. apply registry_ok_trained. Qed.

(** The labels registered by a training are those with a readable image. *)
Lemma registered_iff_readable (root : store) r m m' :
  ENABLE_RECOG = true ->
  train_recognizer_from_dir root = Some (r, m, m') ->
  forall l, is_Some (m !! l) <-> exists fn img, readable_image root l fn img.
Proof.
  intros Hon [(-> & -> & -> & Hnone)|(a & rec & Hinv & _ & _ & -> & -> & ->)]%train_cases l.
  - rewrite lookup_empty. split; [by intros [? ?]|].
    intros (fn & img & Himg).
    assert ((l, (l, fn)) ∈ filter
              (fun lp : string * path => readable_at root lp.2 = true)
              (_iter_face_paths root)) as Hin.
    { apply list_elem_of_filter.
      destruct (proj2 (yielded_and_read root l (l, fn))) as [? ?]; [|done].
      split; [done|]. by exists img. }
    rewrite (Hnone Hon) in Hin. by apply elem_of_nil in Hin.
  - destruct Hinv as (_ & _ & _ & Hreg & _). rewrite Hreg. split.
    + intros (p & Hp & Hr).
      destruct (proj1 (yielded_and_read root l p)) as [_ (img & Himg)]; [done|].
      by exists p.2, img.
    + intros (fn & img & Himg). exists (l, fn).
      apply (yielded_and_read root l (l, fn)). split; [done|]. by exists img.
Qed.

(** X11. With recognition enabled, the labels a training registers are
    exactly the label directories that hold at least one file with an image
    extension that [cv2.imread] reads. *)
Theorem registry_is_the_labels_with_images (root : store) r m m' (l : string) :
  ENABLE_RECOG = true ->
  train_recognizer_from_dir root = Some (r, m, m') ->
  (is_Some (m !! l) <-> exists fn img, readable_image root l fn img).
Proof. intros Hon Htrain. by eapply registered_iff_readable. Qed.

(** X12. When training returns a model, the model was trained on one sample
    and one id for each file that was yielded and read, and every id given
    to it is the id of a registered label. *)
Theorem model_trained_on_readable_files (root : store) rec m m' :
  train_recognizer_from_dir root = Some (Some rec, m, m') ->
  exists (samples : list image) (ids : list Z),
    lbph_train samples ids = Some rec /\
    length samples = length ids /\
    length samples =
      length (filter (fun lp : string * path => readable_at root lp.2 = true)
                (_iter_face_paths root)) /\
    forall i, i ∈ ids -> is_Some (m' !! i).
Proof.
  intros [(? & _)|(a & rec' & Hinv & _ & Htrain & [= <-] & -> & ->)]%train_cases;
    [done|].
  destruct Hinv as (_ & _ & _ & _ & Hlen & Hcount & Hy).
  by exists (X a), (y a).
Qed.

End RegistryFacts.

(** ** The recognizer globals along the calls *)

Section GlobalsFacts.
Context `{cv : OpenCV} `{cfg : Config}.

Lemma registry_ok_reload (root : store) g :
  registry_ok g -> registry_ok (reload_recognizer root g).2.
Proof.
  intros Hg. unfold reload_recognizer.
  destruct (train_recognizer_from_dir root) as [[[r m] m']|] eqn:Htrain; [|done].
  by apply registry_ok_trained in Htrain.
Qed.

(** A property of the globals that every reload keeps is kept by every
    call. *)
Section Closed.
Variable P : recog_globals -> Prop.
Hypothesis Hreload : forall root g, P g -> P (reload_recognizer root g).2.

Lemma closed_do_reload s : P (globals s) -> P (globals (do_reload s)).
Proof.
  intros Hs. destruct (do_reload_facts s) as (_ & _ & _ & _ & _ & ->).
  by apply Hreload.
Qed.

Lemma closed_capture_worker tid inp s :
  P (globals s) -> P (globals (_capture_worker tid inp s)).
Proof.
  intros Hs. unfold _capture_worker.
  destruct (threads s !! tid) as [w|]; [|done].
  destruct (pc w); try done.
  - destruct (negb (capture_event s) && _); [|done].
    by destruct (_save_one_face _ _ _ _) as [[fn root']|].
  - simpl. destruct (retrain_on_stop (capture_state s)); [|done].
    by apply closed_do_reload.
Qed.

Lemma closed_run_until stop sched : forall s,
  P (globals s) -> P (globals (run_until stop sched s)).
Proof.
  induction sched as [|[tid inp] rest IH]; intros s Hs; simpl;
    destruct (stop s); auto using closed_capture_worker.
Qed.

Lemma closed_step s o : P (globals s) -> P (globals (step s o)).
Proof.
  intros Hs. destruct o as [q|q sched|sched|l sched|tid inp]; simpl.
  - unfold api_capture_start. destruct (missing _); [done|].
    destruct (running (capture_state s)); [done|].
    by destruct (int_arg 200 (q_interval_ms q)), (int_arg 20 (q_target_count q)).
  - unfold api_register. destruct (missing _); [done|].
    destruct (int_arg 500 (q_interval_ms q)), (int_arg 30 (q_target_count q)); try done.
    destruct (running (capture_state s)); [done|].
    destruct (is_true _); simpl; [by apply closed_run_until|done].
  - unfold api_capture_stop. destruct (negb _); [done|]. simpl.
    destruct (thread_alive _); [by apply closed_run_until|done].
  - unfold api_delete_label. destruct l as [name|]; [|done].
    destruct (String.eqb name ""); [done|].
    destruct (negb _); [done|]. simpl. apply closed_do_reload. simpl.
    destruct (running (capture_state s) && _); [|done]. simpl.
    destruct (thread_alive _); [by apply closed_run_until|done].
  - by apply closed_capture_worker.
Qed.

Lemma closed_serve s c : P (globals s) -> P (globals (serve s c)).
Proof.
  intros Hs. destruct c as [o| |q now_ms| |q latest clock]; simpl.
  - by apply closed_step.
  - by apply closed_do_reload.
  - unfold api_enroll. destruct (e_image q) as [| |img]; try done.
    destruct (e_label q) as [l|]; [|done].
    destruct (String.eqb l ""); [done|].
    destruct (makedirs (data_dir s) l) as [root|]; [|done].
    simpl. by apply closed_do_reload.
  - by apply closed_do_reload.
  - unfold api_capture. destruct (int_arg 1 (c_n q)) as [n|]; [|done].
    destruct (c_label q) as [l|]; [|done].
    destruct (String.eqb l ""); [done|].
    destruct latest as [gray|]; [|done].
    destruct (Py.max_by area (detectMultiScale gray)) as [b|]; [|done].
    destruct (makedirs (data_dir s) l) as [root|]; [|done].
    destruct (capture_copies _ _ _ _ _ _) as [root' saved]. simpl.
    destruct (not_false (c_retrain q)); [by apply closed_do_reload|done].
Qed.

Lemma closed_serve_all calls : forall s,
  P (globals s) -> P (globals (serve_all s calls)).
Proof.
  induction calls as [|c rest IH]; intros s Hs; [done|].
  apply IH. by apply closed_serve.
Qed.

End Closed.

(** X13. Whatever calls are served from the start, the label maps in place
    are inverse of each other with ids 0, 1, ... without a gap, and a model
    is in place exactly when a label is registered: the three globals are
    only ever replaced together. *)
Theorem registry_consistent_in_every_state (root : store) (calls : list call) :
  registry_ok (globals (serve_all (system0 root) calls)).
Proof.
  apply (closed_serve_all registry_ok).
  - intros r g. apply registry_ok_reload.
  - apply registry_ok_no_recognizer.
Qed.

(** X14. With a registry as every state has it, a box is published either
    as "unknown" or under a registered label. *)
Theorem published_names_are_registered st inp (p : person) :
  registry_ok (in_recog inp) ->
  p ∈ faces_out (cycle st inp).2 ->
  p_label p = "unknown" \/ p_label p ∈ registered (in_recog inp).
Proof.
  intros (Hinv & _ & _) Hp.
  destruct (cycle_results st inp) as (_ & _ & Hout).
  apply Hout in Hp as (idx & called & _ & _ & Hrec).
  destruct (decide (p_label p = "unknown")) as [|Hne]; [by left|]. right.
  apply recognise_inv in Hrec as [_ Hname].
  destruct (Hname Hne) as (r & pred_id & c & _ & _ & _ & _ & Hlab).
  apply elem_of_dom. exists pred_id. by apply Hinv.
Qed.

End GlobalsFacts.

(** ** What the enrollment calls write *)

Section SaveFacts.
Context `{cv : OpenCV} `{cfg : Config}.

Lemma string_app_assoc s t u : (s +:+ t) +:+ u = s +:+ (t +:+ u).
Proof.
  induction s as [|c s IH]; [done|].
  by rewrite !string_app_cons, IH.
Qed.

Lemma is_image_name_cap s : is_image_name ("cap_" +:+ s +:+ ".jpg") = true.
Proof. rewrite <- string_app_assoc. apply is_image_name_jpg. Qed.






End SaveFacts.

(** ** [/recog/capture] *)

Section CaptureCallFacts.
Context `{cv : OpenCV} `{cfg : Config}.





End CaptureCallFacts.

(** ** Deleting labels *)

Section DeleteFacts.
Context `{cv : OpenCV} `{cfg : Config}.

Lemma capture_state_do_reload s : capture_state (do_reload s) = capture_state s.
Proof. by destruct (do_reload_facts s) as (? & _). Qed.

Lemma data_dir_do_reload s : data_dir (do_reload s) = data_dir s.
Proof. by destruct (do_reload_facts s) as (_ & _ & _ & ? & _). Qed.





End DeleteFacts.

(** ** [_label_counts] *)

Section CountFacts.
Context `{cv : OpenCV}.

Lemma label_counts_loop (top : gmap string (fs_node image)) (l : string) ds :
  forall counts : gmap string Z,
  foldl
    (fun counts d =>
       match top !! d with
       | Some (FsDir files) =>
           <[d := Z.of_nat
                    (length (filter (fun fn => is_image_name fn = true)
                               (fst <$> map_to_list files)))]> counts
       | _ => counts
       end) counts ds !! l =
  match top !! l with
  | Some (FsDir files) =>
      if decide (l ∈ ds)
      then Some (Z.of_nat
                   (length (filter (fun fn => is_image_name fn = true)
                              (fst <$> map_to_list files))))
      else counts !! l
  | _ => counts !! l
  end.
Proof.
  induction ds as [|d rest IH]; intros counts; cbn [foldl].
  - by destruct (top !! l) as [[|files]|].
  - rewrite IH. destruct (top !! l) as [[|files]|] eqn:Hl.
    + destruct (top !! d) as [[|files']|] eqn:Hd; try done.
      rewrite lookup_insert_ne; [done|congruence].
    + destruct (decide (l ∈ rest)) as [Hin|Hnin].
      * rewrite decide_True; [done|by right].
      * destruct (decide (d = l)) as [->|Hne].
        -- rewrite Hl, lookup_insert_eq, decide_True; [done|by left].
        -- rewrite decide_False by (rewrite elem_of_cons; intros [?|?]; congruence).
           destruct (top !! d) as [[|files']|]; try done.
           by rewrite lookup_insert_ne.
    + destruct (top !! d) as [[|files']|] eqn:Hd; try done.
      rewrite lookup_insert_ne; [done|congruence].
Qed.

Lemma filter_all {A} (P : A -> Prop) `{forall x, Decision (P x)} (l : list A) :
  Forall P l -> filter P l = l.
Proof.
  induction 1 as [|x rest Hx _ IH]; [done|].
  by rewrite filter_cons_True, IH.
Qed.

Lemma filter_none {A} (P : A -> Prop) `{forall x, Decision (P x)} (l : list A) :
  Forall (fun x => ~ P x) l -> filter P l = [].
Proof.
  induction 1 as [|x rest Hx _ IH]; [done|].
  by rewrite filter_cons_False, IH.
Qed.

Lemma length_filter_bind {A B} `{EqDecision A} (f : B -> A) (g : A -> list B)
    (a : A) (ds : list A) :
  (forall d b, b ∈ g d -> f b = d) ->
  NoDup ds ->
  length (filter (fun b => f b = a) (ds ≫= g)) =
  if decide (a ∈ ds) then length (g a) else 0%nat.
Proof.
  intros Hg Hnd. induction Hnd as [|d rest Hd Hnd IH].
  - by rewrite decide_False by apply not_elem_of_nil.
  - rewrite bind_cons, filter_app, length_app, IH.
    destruct (decide (d = a)) as [->|Hne].
    + rewrite (decide_True (P := a ∈ a :: rest)) by by left.
      rewrite (decide_False (P := a ∈ rest)) by done.
      rewrite filter_all; [lia|]. apply Forall_forall. intros b Hb. by apply Hg.
    + rewrite filter_none.
      2:{ apply Forall_forall. intros b Hb Hfb. apply Hg in Hb. congruence. }
      destruct (decide (a ∈ rest)) as [Hin|Hnin].
      * rewrite decide_True; [done|by right].
      * rewrite decide_False; [done|].
        rewrite elem_of_cons. intros [?|?]; congruence.
Qed.

(** X20. [_label_counts] has an entry exactly for the label directories,
    and the count of a label is the number of paths that
    [_iter_face_paths] yields for it: the files the trainer tries to read. *)
Theorem label_counts_are_the_yielded_paths (root : store) (l : string) :
  _label_counts root !! l =
  if is_label_dir root l
  then Some (Z.of_nat
               (length (filter (fun lp : string * path => lp.1 = l)
                          (_iter_face_paths root))))
  else None.
Proof.
  unfold _label_counts, _iter_face_paths, is_label_dir.
  destruct root as [top|]; [|done].
  rewrite label_counts_loop, lookup_empty.
  rewrite (length_filter_bind fst); [| |apply NoDup_listdir_sorted].
  2:{ intros d lp Hin. destruct (top !! d) as [[|files]|]; try by apply elem_of_nil in Hin.
      by apply list_elem_of_fmap in Hin as (fn & -> & _). }
  destruct (top !! l) as [[|files]|] eqn:Hl; try done.
  rewrite !decide_True by (apply elem_of_listdir_sorted; eauto).
  rewrite length_fmap. unfold listdir_sorted. do 2 f_equal. symmetry.
  apply Permutation_length, filter_Permutation, sorted_Permutation.
Qed.

End CountFacts.

(** ** The capture threads along the calls *)

Section ThreadFacts.
Context `{cv : OpenCV} `{cfg : Config}.

(** A property of the state that the elementary changes keep is kept by
    every call. *)
Section Kept.
Variable P : system -> Prop.
Hypothesis Hworker : forall tid inp s, P s -> P (_capture_worker tid inp s).
Hypothesis Hlaunch : forall l interval target face retrain s,
  P s -> P (launch l interval target face retrain s).
Hypothesis Hevent : forall b s, P s -> P (set_event b s).
Hypothesis Hclear : forall s, P s -> P (clear_running s).
Hypothesis Hreload : forall s, P s -> P (do_reload s).
Hypothesis Hrmtree : forall l s, P s -> P (rmtree l s).
Hypothesis Hstore : forall root s, P s -> P (with_data_dir root s).

Lemma kept_run_until stop sched : forall s, P s -> P (run_until stop sched s).
Proof.
  induction sched as [|[tid inp] rest IH]; intros s Hs; simpl;
    destruct (stop s); auto.
Qed.

Lemma kept_step s o : P s -> P (step s o).
Proof.
  intros Hs. destruct o as [q|q sched|sched|l sched|tid inp]; simpl.
  - unfold api_capture_start. destruct (missing _); [done|].
    destruct (running (capture_state s)); [done|].
    destruct (int_arg 200 (q_interval_ms q)), (int_arg 20 (q_target_count q));
      simpl; auto.
  - unfold api_register. destruct (missing _); [done|].
    destruct (int_arg 500 (q_interval_ms q)), (int_arg 30 (q_target_count q)); try done.
    destruct (running (capture_state s)); [done|].
    destruct (is_true _); simpl; auto using kept_run_until.
  - unfold api_capture_stop. destruct (negb _); [done|]. simpl.
    destruct (thread_alive _); [apply kept_run_until|]; auto.
  - unfold api_delete_label. destruct l as [name|]; [|done].
    destruct (String.eqb name ""); [done|].
    destruct (negb _); [done|]. simpl. apply Hreload, Hrmtree.
    destruct (running (capture_state s) && _); [|done]. apply Hclear.
    destruct (thread_alive _); [apply kept_run_until|]; auto.
  - auto.
Qed.

Lemma kept_serve s c : P s -> P (serve s c).
Proof.
  intros Hs. destruct c as [o| |q now_ms| |q latest clock]; simpl.
  - by apply kept_step.
  - by apply Hreload.
  - unfold api_enroll. destruct (e_image q) as [| |img]; try done.
    destruct (e_label q) as [l|]; [|done].
    destruct (String.eqb l ""); [done|].
    destruct (makedirs (data_dir s) l) as [root|]; [|done].
    simpl. auto.
  - apply Hreload. auto.
  - unfold api_capture. destruct (int_arg 1 (c_n q)) as [n|]; [|done].
    destruct (c_label q) as [l|]; [|done].
    destruct (String.eqb l ""); [done|].
    destruct latest as [gray|]; [|done].
    destruct (Py.max_by area (detectMultiScale gray)) as [b|]; [|done].
    destruct (makedirs (data_dir s) l) as [root|]; [|done].
    destruct (capture_copies _ _ _ _ _ _) as [root' saved]. simpl.
    destruct (not_false (c_retrain q)); auto.
Qed.

Lemma kept_serve_all calls : forall s, P s -> P (serve_all s calls).
Proof.
  induction calls as [|c rest IH]; intros s Hs; [done|].
  apply IH. by apply kept_serve.
Qed.

End Kept.

Lemma save_one_face_path inp l face_only (root root' : store) fn :
  _save_one_face inp l face_only root = Some (Some fn, root') ->
  l = Some fn.1 /\ is_image_name fn.2 = true.
Proof.
  unfold _save_one_face.
  destruct (in_latest inp) as [gray|]; [|done].
  destruct (Py.max_by area (detectMultiScale gray)) as [b|]; [|done].
  destruct (size _ =? 0); [done|].
  destruct l as [l|]; [|done].
  destruct (imwrite root _ _) as [r1|]; [|done].
  simpl. intros [= <- <-]. split; [done|]. apply is_image_name_cap.
Qed.

Lemma Forall_insert_ok {A} (Q : A -> Prop) (l : list A) i x :
  Forall Q l -> Q x -> Forall Q (<[i := x]> l).
Proof. intros Hl Hx. by apply Forall_insert. Qed.

(** The threads within their targets, and the list the session reports
    made of image files. *)
Lemma workers_ok_worker_step tid inp s :
  Forall worker_ok (threads s) /\
  Forall (fun p : path => is_image_name p.2 = true) (saved (capture_state s)) ->
  Forall worker_ok (threads (_capture_worker tid inp s)) /\
  Forall (fun p : path => is_image_name p.2 = true)
    (saved (capture_state (_capture_worker tid inp s))).
Proof.
  intros [Hws Hsaved]. unfold _capture_worker.
  destruct (threads s !! tid) as [w|] eqn:Hw; [|done].
  assert (worker_ok w) as [Hlen Hpaths].
  { by eapply (proj1 (Forall_lookup _ _) Hws). }
  destruct (pc w) eqn:Hpc.
  - split; [|done]. apply Forall_insert_ok; [done|]. split; simpl; [lia|].
    by intros p ?%elem_of_nil.
  - destruct (negb (capture_event s) && _) eqn:Hgo.
    2:{ split; [|done]. by apply Forall_insert_ok. }
    apply andb_true_iff in Hgo as [_ Hlt%Z.ltb_lt].
    destruct (_save_one_face _ _ _ _) as [[fn root']|] eqn:Hsave.
    2:{ split; [|done]. by apply Forall_insert_ok. }
    split; [|done]. apply Forall_insert_ok; [done|]. split; simpl.
    + rewrite length_app. destruct fn; simpl; lia.
    + intros p [Hp|Hp]%elem_of_app; [by apply Hpaths|].
      destruct fn as [fn|]; [|by apply elem_of_nil in Hp].
      apply list_elem_of_singleton in Hp as ->.
      by apply save_one_face_path in Hsave.
  - split; [by apply Forall_insert_ok|]. simpl.
    apply Forall_forall. intros p Hp. by apply Hpaths.
  - split; [|done]. by apply Forall_insert_ok.
  - destruct (retrain_on_stop (capture_state s)).
    + destruct (do_reload_facts s) as (Hc & _ & Ht & _).
      simpl. rewrite Hc, Ht. split; [|done]. by apply Forall_insert_ok.
    + split; [|done]. by apply Forall_insert_ok.
  - done.
  - done.
Qed.

(** X21. Whatever calls are served from the start, no capture thread has
    saved more files than max(0, target), every file it has saved is a file
    with an image extension in the directory of the label it was started
    for, and the list the session reports holds only such files. *)
Theorem workers_stay_within_target (root : store) (calls : list call) :
  let s := serve_all (system0 root) calls in
  Forall worker_ok (threads s) /\
  Forall (fun p : path => is_image_name p.2 = true) (saved (capture_state s)).
Proof.
  apply (kept_serve_all
           (fun s => Forall worker_ok (threads s) /\
                     Forall (fun p : path => is_image_name p.2 = true)
                       (saved (capture_state s)))).
  - intros tid inp s. apply workers_ok_worker_step.
  - intros l interval target face retrain s [Hws _]. simpl. split; [|done].
    apply Forall_app. split; [done|]. apply Forall_singleton.
    split; simpl; [lia|]. by intros p ?%elem_of_nil.
  - by intros b s.
  - by intros s.
  - intros s. destruct (do_reload_facts s) as (-> & _ & -> & _). done.
  - by intros l s.
  - by intros r s.
  - by split.
Qed.

End ThreadFacts.

(** ** Stopping, and a thread that died *)

Section StopFacts.
Context `{cv : OpenCV} `{cfg : Config}.




Lemma dead_worker_step tid inp s :
  Forall (fun w => is_alive w = false) (threads s) ->
  _capture_worker tid inp s = s.
Proof.
  intros Hdead. unfold _capture_worker.
  destruct (threads s !! tid) as [w|] eqn:Hw; [|done].
  assert (is_alive w = false) as Hw' by by eapply (proj1 (Forall_lookup _ _) Hdead).
  unfold is_alive in Hw'. by destruct (pc w).
Qed.

Lemma dead_run_until stop sched : forall s,
  Forall (fun w => is_alive w = false) (threads s) ->
  run_until stop sched s = s.
Proof.
  induction sched as [|[tid inp] rest IH]; intros s Hdead; simpl;
    destruct (stop s); try done.
  rewrite dead_worker_step by done. by apply IH.
Qed.

Lemma dead_thread_alive s :
  Forall (fun w => is_alive w = false) (threads s) -> thread_alive s = false.
Proof.
  intros Hdead. unfold thread_alive, capture_thread.
  destruct (last (threads s)) as [w|] eqn:Hlast; [|done].
  apply last_Some in Hlast as [pre Hpre]. rewrite Hpre in Hdead.
  apply Forall_app in Hdead as [_ Hw]. by inversion Hw.
Qed.

Lemma stuck_step s o :
  stuck s -> stuck (step s o) /\ capture_state (step s o) = capture_state s.
Proof.
  intros (Hrun & Hdead & l & Hlab & Hdir).
  destruct o as [q|q sched|sched|l' sched|tid inp]; simpl.
  - unfold api_capture_start. rewrite Hrun.
    destruct (missing _); (split; [by repeat split; eauto|done]).
  - unfold api_register. rewrite Hrun. destruct (missing _).
    { split; [by repeat split; eauto|done]. }
    destruct (int_arg 500 (q_interval_ms q)), (int_arg 30 (q_target_count q));
      (split; [by repeat split; eauto|done]).
  - unfold api_capture_stop. rewrite Hrun. simpl.
    assert (thread_alive (set_event true s) = false) as -> by by apply dead_thread_alive.
    split; [by repeat split; eauto|done].
  - unfold api_delete_label. destruct l' as [name|].
    2:{ split; [by repeat split; eauto|done]. }
    destruct (String.eqb name "").
    { split; [by repeat split; eauto|done]. }
    destruct (is_label_dir (data_dir s) name) eqn:Hname; simpl.
    2:{ split; [by repeat split; eauto|done]. }
    rewrite Hrun, Hlab. simpl.
    rewrite bool_decide_eq_false_2 by (intros [= ->]; congruence).
    destruct (do_reload_facts (rmtree name s)) as (Hc & _ & Ht & Hd & _).
    split; [|done]. split; [by rewrite Hc|]. split; [by rewrite Ht|].
    exists l. split; [by rewrite Hc|]. rewrite Hd. simpl.
    destruct (decide (name = l)) as [->|Hne]; [by rewrite lookup_delete_eq|].
    rewrite lookup_delete_ne by done.
    unfold is_label_dir in Hdir. destruct (data_dir s) as [top|]; [done|].
    simpl. by rewrite lookup_empty.
  - rewrite dead_worker_step by done. split; [by repeat split; eauto|done].
Qed.

Lemma stuck_run ops : forall s,
  stuck s -> stuck (run s ops) /\ capture_state (run s ops) = capture_state s.
Proof.
  induction ops as [|o rest IH]; intros s Hs; [done|].
  destruct (stuck_step s o Hs) as [Hs1 Hc1].
  destruct (IH _ Hs1) as [Hs' Hc']. unfold run in *. simpl.
  split; [done|]. by rewrite Hc', Hc1.
Qed.

(** X23. When the session is marked as running, no capture thread is alive
    (the thread died of an exception) and the label has no directory, the
    workflow cannot leave that state: whatever start, register, stop and
    delete calls follow, [capture_state] stays as it is, with [running]
    true, and every start or register is refused. *)
Theorem dead_thread_keeps_session_running (s : system) (ops : list op) :
  stuck s ->
  let s' := run s ops in
  stuck s' /\
  capture_state s' = capture_state s /\
  (forall q, api_capture_start q s' = (BadRequest400, s') \/
             api_capture_start q s' = (Conflict409, s')) /\
  (forall q sched, exists r, api_register q sched s' = (r, s') /\
                             r <> CaptureStarted 202 /\
                             forall st run files, r <> CaptureReport st run files).
Proof.
  intros Hs. destruct (stuck_run ops s Hs) as [Hs' Hc]. cbn zeta.
  split; [done|]. split; [done|].
  destruct Hs' as (Hrun & _). split.
  - intros q. unfold api_capture_start. rewrite Hrun.
    destruct (missing _); auto.
  - intros q sched. unfold api_register. rewrite Hrun.
    destruct (missing _); [by eexists|].
    destruct (int_arg 500 (q_interval_ms q)), (int_arg 30 (q_target_count q));
      by eexists.
Qed.

End StopFacts.

(** ** The further properties at work on the small OpenCV *)


(** A window full of votes for alice, then five recognition cycles that
    see no box. *)
Lemma window_flushed_by_unknown_witness :
  @final_text (Toy.opencv true true) default_config
    (foldl (fun h b => @push_vote default_config b h)
       (replicate 5 ("alice", Some 5%float)) (replicate 5 None)) = "unknown".
Proof.
  apply (@window_flushed_by_unknown (Toy.opencv true true) default_config).
  - vm_compute. lia.
  - vm_compute. lia.
  - intros b Hb. apply elem_of_replicate in Hb as [-> _]. reflexivity.
Defined.

(** The second frame of alice is a recognition cycle: her box is published
    with her name and the distance 5, within the threshold. *)
Lemma published_label_and_confidence_witness :
  let out :=
    (@detection_loop (Toy.opencv true true) default_config loop_start
       [Some Toy.frame; Some Toy.frame]) in
  exists p c,
    faces_out <$> last out.2 = Some [p] /\
    p_label p = "alice" /\
    p_conf p = Some c /\
    PrimFloat.leb c (@RECOG_THRESHOLD default_config) = true.
Proof.
  intros out.
  set (st := (@cycle (Toy.opencv true true) default_config loop_start Toy.frame).1).
  set (p := {| p_label := "alice"; p_conf := Some 5%float; p_bbox := Toy.face;
               p_ts := 0%float |}).
  assert (faces_out (@cycle (Toy.opencv true true) default_config st Toy.frame).2 = [p])
    as Hout by (vm_compute; reflexivity).
  destruct (@published_label_and_confidence (Toy.opencv true true) default_config
              st Toy.frame p) as (_ & Hnamed & _).
  { cbn zeta. rewrite Hout. apply list_elem_of_singleton. reflexivity. }
  destruct Hnamed as (c & Hc & Hle); [discriminate|].
  exists p, c. split; [vm_compute; reflexivity|]. split; [reflexivity|].
  split; [exact Hc|exact Hle].
Defined.

(** Training on the store that has one image of alice. *)
Lemma trained_registry_is_dense_and_inverse_witness :
  let g :=
    (@reload_recognizer (Toy.opencv true true) default_config
       (Toy.alice_store true true) no_recognizer).2 in
  (forall l i, label2id g !! l = Some i <-> id2label g !! i = Some l) /\
  (forall i, is_Some (id2label g !! i) <-> 0 <= i < Z.of_nat (base.size (id2label g))) /\
  (recognizer g = None <-> label2id g = ∅).
Proof.
  intros g.
  apply (@trained_registry_is_dense_and_inverse (Toy.opencv true true) default_config
           (Toy.alice_store true true)).
  vm_compute. reflexivity.
Defined.

Lemma registry_is_the_labels_with_images_witness :
  let g :=
    (@reload_recognizer (Toy.opencv true true) default_config
       (Toy.alice_store true true) no_recognizer).2 in
  is_Some (label2id g !! "alice") /\
  ~ is_Some (label2id g !! "bob") /\
  exists fn img, @readable_image (Toy.opencv true true) (Toy.alice_store true true) "alice" fn img.
Proof.
  intros g.
  assert (is_Some (label2id g !! "alice")) as Halice by (vm_compute; eauto).
  split; [exact Halice|]. split; [vm_compute; by intros [? ?]|].
  apply (@registry_is_the_labels_with_images (Toy.opencv true true) default_config
           (Toy.alice_store true true) (recognizer g) (label2id g) (id2label g) "alice").
  - reflexivity.
  - vm_compute. reflexivity.
  - exact Halice.
Defined.

Lemma model_trained_on_readable_files_witness :
  exists (samples : list (@image (Toy.opencv true true))) (ids : list Z),
    @lbph_train (Toy.opencv true true) samples ids = Some [0] /\
    length samples = length ids /\
    length samples = 1%nat.
Proof.
  destruct (@model_trained_on_readable_files (Toy.opencv true true) default_config
              (Toy.alice_store true true) [0]
              (label2id (in_recog Toy.frame)) (id2label (in_recog Toy.frame)))
    as (samples & ids & Htrain & Hlen & Hcount & _).
  - vm_compute. reflexivity.
  - exists samples, ids. split; [exact Htrain|]. split; [exact Hlen|].
    rewrite Hcount. vm_compute. reflexivity.
Defined.

(** The box published on the second frame of alice carries a registered
    label. *)
Lemma published_names_are_registered_witness :
  let st := (@cycle (Toy.opencv true true) default_config loop_start Toy.frame).1 in
  let p := {| p_label := "alice"; p_conf := Some 5%float; p_bbox := Toy.face;
              p_ts := 0%float |} in
  faces_out (@cycle (Toy.opencv true true) default_config st Toy.frame).2 = [p] /\
  p_label p ∈ @registered (Toy.opencv true true) (in_recog Toy.frame).
Proof.
  intros st p.
  assert (faces_out (@cycle (Toy.opencv true true) default_config st Toy.frame).2 = [p])
    as Hout by (vm_compute; reflexivity).
  split; [exact Hout|].
  destruct (@published_names_are_registered (Toy.opencv true true) default_config
              st Toy.frame p) as [Hunknown|Hreg].
  - apply (@registry_ok_trained (Toy.opencv true true) default_config
             (Toy.alice_store true true)).
    vm_compute. reflexivity.
  - rewrite Hout. apply list_elem_of_singleton. reflexivity.
  - discriminate.
  - exact Hreg.
Defined.





(** A capture for "alice" on a store where "alice" is a regular file: the
    thread dies at its first crop; a stop and a delete later the session
    still runs and a new start is refused. *)
Lemma dead_thread_keeps_session_running_witness :
  let s' :=
    @run (Toy.opencv true true) default_config capture_on_a_file
      [StopCapture []; Delete (Some "alice") []] in
  running (capture_state s') = true /\
  @api_capture_start (Toy.opencv true true) (Toy.start_alice 3) s' = (Conflict409, s').
Proof.
  intros s'.
  destruct (@dead_thread_keeps_session_running (Toy.opencv true true) default_config
              capture_on_a_file [StopCapture []; Delete (Some "alice") []])
    as ((Hrun & _) & _ & Hstart & _).
  - split; [vm_compute; reflexivity|]. split.
    + repeat constructor.
    + exists "alice". split; vm_compute; reflexivity.
  - split; [exact Hrun|].
    destruct (Hstart (Toy.start_alice 3)) as [Hbad|Hconflict]; [|exact Hconflict].
    exfalso. revert Hbad. unfold api_capture_start.
    change (missing (q_label (Toy.start_alice 3))) with false. cbv iota.
    rewrite Hrun. discriminate.
Defined.
